(** * LiDAR odometry core (loam_velodyne): LaserOdometry.cpp and common.h

    A shallow embedding of [LaserOdometry] (transformToStart,
    transformToEnd, pluginIMURotation, accumulateRotation, reset,
    hasNewData, process, generateRegisteredCloud) and of [savePoseToFile].

    Conventions of the embedding.
    - [float] and [double] values are idealised as exact rationals [Q]:
      no rounding and no overflow.  The coordinates of the input clouds
      and the results of the third-party operations are finite, so
      [pcl_isfinite] holds of every scalar and [removeNaNFromPointCloud]
      keeps every point; a cloud with a NaN coordinate is not an input of
      the embedding.
    - The two residual formulas of [process] divide by square roots that
      are zero on finite inputs.  There the IEEE outcome is followed: a
      weight that is an infinity or a NaN fails the test [s > 0.1] and the
      correspondence is dropped; where a coefficient that is not finite
      would be stored, the run stops with [NotFinite] (what Eigen makes of
      such a coefficient is not in the source).  The remaining divisions
      are by pi ([rad2deg]) and by a cosine ([pluginIMURotation]); for a
      zero divisor [Qdiv] gives 0 there.
    - Comparisons and the integer conversions [int(x)] / [size_t(x)] are
      the exact ones.  A value beyond the range of [int] is undefined
      behaviour in C++ and not an input of the embedding.
    - A [shared_ptr] to a point cloud is modelled by the cloud it points
      to; [swap] of two pointers swaps the two values.  A kd-tree is
      modelled by the cloud its index was built over.
    - Functions of third-party libraries (libm, Eigen, PCL, the kd-tree
      search) are operations of the class [Externals].  The general
      theorems hold for all of them; the evaluations on concrete sweeps
      use the instance [Reference.externals].
    - A read of [cloud->points[j]] outside the cloud is undefined
      behaviour in C++; the embedding stops there with [OutOfRange].
    - Output to [stdout] ([printf]) is left out. *)

From Stdlib Require Import ZArith QArith Qabs Lia Lqa.
From stdpp Require Import base list option gmap strings.

Local Open Scope Q_scope.

(** ** Scalars *)

Definition Qltb (a b : Q) : bool := negb (Qle_bool b a).
Definition Qgtb (a b : Q) : bool := Qltb b a.
Definition Qneqb (a b : Q) : bool := negb (Qeq_bool a b).

(** [int(x)]: conversion of a floating value to [int], towards zero, for a
    value within the range of [int] (beyond it the conversion is undefined
    in C++). *)
Definition to_int (a : Q) : Z := Z.quot (Qnum a) (Zpos (Qden a)).

(** [size_t(x)]: as [int(x)], an unsigned 64-bit value. *)
Definition size_t_max : Z := 2 ^ 64.
Definition to_size_t (z : Z) : Z := z mod size_t_max.

Definition fabs (a : Q) : Q := Qabs a.

(** [pcl_isfinite]: every scalar of the embedding is a rational, hence
    finite.  The replacement of non-finite pose components by zero and the
    removal of non-finite points are kept where the source has them, but
    they never fire on the runs the embedding covers. *)
Definition pcl_isfinite (a : Q) : bool := true.



(** ** Points, vectors, angles and poses *)

(** [pcl::PointXYZI]: a position and the channel [intensity], whose integer
    part is the scan ring and whose fraction is the relative sweep time. *)
Record PointXYZI := mkPoint { p_x : Q; p_y : Q; p_z : Q; intensity : Q }.

(** The default constructor of [pcl::PointXYZI] zeroes the point. *)
Definition PointXYZI_default : PointXYZI := mkPoint 0 0 0 0.

Abbreviation Cloud := (list PointXYZI).

Record Vector3 := mkVector3 { v_x : Q; v_y : Q; v_z : Q }.

Definition Vector3_zero : Vector3 := mkVector3 0 0 0.

Definition vsub (a b : Vector3) : Vector3 :=
  mkVector3 (v_x a - v_x b) (v_y a - v_y b) (v_z a - v_z b).

Definition vscale (a : Vector3) (k : Q) : Vector3 :=
  mkVector3 (v_x a * k) (v_y a * k) (v_z a * k).

(** Modelled from the spec: the class [Angle] of Angle.h.  The spec fixes
    only that [rad], [deg], [sin] and [cos] of an angle are consistent, so
    an angle is its radian value and its sine and cosine are taken from
    [Externals] where they are used. *)
Definition Angle := Q.

(** Modelled from the spec: the pose type [Twist] of Twist.h, three Euler
    angles and a translation, all zero when default-constructed. *)
Record Twist := mkTwist { rot_x : Angle; rot_y : Angle; rot_z : Angle; pos : Vector3 }.

Definition Twist_default : Twist := mkTwist 0 0 0 Vector3_zero.

(** ** Matrices: rows of scalars *)

Abbreviation Vec := (list Q).
Abbreviation Mat := (list (list Q)).

Definition vget (v : Vec) (i : nat) : Q := nth i v 0.
Definition mget (m : Mat) (i j : nat) : Q := nth j (nth i m []) 0.

Definition dot (a b : Vec) : Q :=
  fold_right Qplus 0 (zip_with Qmult a b).

Fixpoint transpose (cols : nat) (m : Mat) : Mat :=
  match cols with
  | O => []
  | S c => transpose c m ++ [map (fun row => nth c row 0) m]
  end.

Definition mvmul (m : Mat) (v : Vec) : Vec := map (fun row => dot row v) m.

(** [a * b], where [b] has [cols] columns. *)
Definition mmul (cols : nat) (a b : Mat) : Mat :=
  let bt := transpose cols b in
  map (fun row => map (fun col => dot row col) bt) a.

Definition identity (n : nat) : Mat :=
  map (fun i => map (fun j => if Nat.eqb i j then 1 else 0) (seq 0 n)) (seq 0 n).

Definition mred (m : Mat) : Mat := map (map Qred) m.
Definition vred (v : Vec) : Vec := map Qred v.

(** ** Where a run stops

    A run returns, or it stops in the undefined behaviour of an
    out-of-range read, or it stops where a value that is not finite would
    be stored. *)

Inductive Run (A : Type) : Type :=
  | Done (a : A)
  | OutOfRange (j : Z) (size : nat)
  | NotFinite.
Arguments Done {A} a.
Arguments OutOfRange {A} j size.
Arguments NotFinite {A}.

#[export] Instance Run_ret : MRet Run := fun A a => Done a.
#[export] Instance Run_bind : MBind Run := fun A B f m =>
  match m with
  | Done a => f a
  | OutOfRange j n => OutOfRange j n
  | NotFinite => NotFinite
  end.

(** [cloud->points[j]] *)
Definition at_ (c : Cloud) (j : Z) : Run PointXYZI :=
  if (j <? 0)%Z then OutOfRange j (length c)
  else match c !! Z.to_nat j with
       | Some p => Done p
       | None => OutOfRange j (length c)
       end.

(** [v[i]] of a [std::vector<int>] *)
Definition ind_at (v : list Z) (i : nat) : Run Z :=
  match v !! i with
  | Some k => Done k
  | None => OutOfRange (Z.of_nat i) (length v)
  end.

(** ** Operations of third-party libraries *)

(** Modelled from the spec: the neighbour index [KdTreeFLANN], a static
    spatial index over a cloud.  It is the cloud given to the last
    [setInputCloud], or nothing before the first one. *)
Abbreviation KdTreeFLANN := (option (list PointXYZI)).

Definition setInputCloud (c : Cloud) : KdTreeFLANN := Some c.

Class Externals := {
  (* libm *)
  ext_sin : Q -> Q;
  ext_cos : Q -> Q;
  ext_asin : Q -> Q;
  ext_atan2 : Q -> Q -> Q;
  ext_sqrt : Q -> Q;
  ext_pi : Q;
  (* kd-tree: [nearestKSearch(p, 1, ind, sqDis)] gives [ind[0]] and [sqDis[0]] *)
  nearestKSearch : KdTreeFLANN -> PointXYZI -> Z * Q;
  (* Eigen *)
  colPivHouseholderQr_solve : Mat -> Vec -> Vec;
  SelfAdjointEigenSolver : Mat -> Vec * Mat;
  inverse : Mat -> Mat;
  (* PCL *)
  getTransformation : Q -> Q -> Q -> Q -> Q -> Q -> Mat;
  getEulerAngles : Mat -> Q * Q * Q
}.

(** [pcl::removeNaNFromPointCloud]: drops the points with a non-finite
    coordinate. *)
Definition removeNaNFromPointCloud (c : Cloud) : Cloud :=
  filter (fun p => pcl_isfinite (p_x p) && pcl_isfinite (p_y p) && pcl_isfinite (p_z p) = true) c.

(** ** math_utils.h *)

Section Geometry.
Context `{Externals}.

(** Modelled from the spec: [rad2deg] of math_utils.h, the conversion of
    radians to degrees. *)
Definition rad2deg (a : Q) : Q := a * 180 / ext_pi.

(** Modelled from the spec: the elementary rotations of math_utils.h
    behind [rotateZXY] and [rotateYXZ], the rotation of a 3-vector about
    one axis by an angle. *)
Definition rotX (v : Vector3) (ang : Angle) : Vector3 :=
  mkVector3 (v_x v)
            (ext_cos ang * v_y v - ext_sin ang * v_z v)
            (ext_sin ang * v_y v + ext_cos ang * v_z v).

Definition rotY (v : Vector3) (ang : Angle) : Vector3 :=
  mkVector3 (ext_cos ang * v_x v + ext_sin ang * v_z v)
            (v_y v)
            (ext_cos ang * v_z v - ext_sin ang * v_x v).

Definition rotZ (v : Vector3) (ang : Angle) : Vector3 :=
  mkVector3 (ext_cos ang * v_x v - ext_sin ang * v_y v)
            (ext_sin ang * v_x v + ext_cos ang * v_y v)
            (v_z v).

(** Modelled from the spec: [rotateZXY(p, rz, rx, ry)] applies the
    rotations in the order Z, then X, then Y; [rotateYXZ] is its inverse
    order Y, then X, then Z. *)
Definition rotateZXY (v : Vector3) (angZ angX angY : Angle) : Vector3 :=
  rotY (rotX (rotZ v angZ) angX) angY.

Definition rotateYXZ (v : Vector3) (angY angX angZ : Angle) : Vector3 :=
  rotZ (rotX (rotY v angY) angX) angZ.

Definition xyz (p : PointXYZI) : Vector3 := mkVector3 (p_x p) (p_y p) (p_z p).

Definition with_xyz (p : PointXYZI) (v : Vector3) : PointXYZI :=
  mkPoint (v_x v) (v_y v) (v_z v) (intensity p).

(** Modelled from the spec: [calcSquaredDiff] and [calcPointDistance] of
    math_utils.h, the squared distance of two points and the Euclidean
    norm of one. *)
Definition calcSquaredDiff (a b : PointXYZI) : Q :=
  (p_x a - p_x b) * (p_x a - p_x b)
  + (p_y a - p_y b) * (p_y a - p_y b)
  + (p_z a - p_z b) * (p_z a - p_z b).

Definition calcPointDistance (p : PointXYZI) : Q :=
  ext_sqrt (p_x p * p_x p + p_y p * p_y p + p_z p * p_z p).

(** ** LaserOdometry::transformToStart *)

Definition transformToStart (transform : Twist) (pi : PointXYZI) : PointXYZI :=
  let s := 10 * (intensity pi - inject_Z (to_int (intensity pi))) in
  let po := mkPoint (p_x pi - s * v_x (pos transform))
                    (p_y pi - s * v_y (pos transform))
                    (p_z pi - s * v_z (pos transform))
                    (intensity pi) in
  let rx := - s * rot_x transform in
  let ry := - s * rot_y transform in
  let rz := - s * rot_z transform in
  with_xyz po (rotateZXY (xyz po) rz rx ry).

(** ** LaserOdometry::transformToEnd *)

(** The IMU hints of a sweep. *)
Record ImuTrans := mkImuTrans {
  imuRollStart : Angle; imuPitchStart : Angle; imuYawStart : Angle;
  imuRollEnd : Angle; imuPitchEnd : Angle; imuYawEnd : Angle;
  imuShiftFromStart : Vector3; imuVeloFromStart : Vector3
}.

Definition transformToEnd_point (transform : Twist) (imu : ImuTrans) (point : PointXYZI)
  : PointXYZI :=
  let s := 10 * (intensity point - inject_Z (to_int (intensity point))) in
  (* rotate to start *)
  let p1 := mkPoint (p_x point - s * v_x (pos transform))
                    (p_y point - s * v_y (pos transform))
                    (p_z point - s * v_z (pos transform))
                    (inject_Z (to_int (intensity point))) in
  let rx := - s * rot_x transform in
  let ry := - s * rot_y transform in
  let rz := - s * rot_z transform in
  let v2 := rotateZXY (xyz p1) rz rx ry in
  (* rotate to end *)
  let v3 := rotateYXZ v2 (rot_y transform) (rot_x transform) (rot_z transform) in
  (* incorporating IMU *)
  let v4 := mkVector3 (v_x v3 + (v_x (pos transform) - v_x (imuShiftFromStart imu)))
                      (v_y v3 + (v_y (pos transform) - v_y (imuShiftFromStart imu)))
                      (v_z v3 + (v_z (pos transform) - v_z (imuShiftFromStart imu))) in
  let v5 := rotateZXY v4 (imuRollStart imu) (imuPitchStart imu) (imuYawStart imu) in
  let v6 := rotateYXZ v5 (- imuYawEnd imu) (- imuPitchEnd imu) (- imuRollEnd imu) in
  with_xyz p1 v6.

(** The cloud after the in-place loop; the returned size is its length. *)
Definition transformToEnd (transform : Twist) (imu : ImuTrans) (cloud : Cloud) : Cloud :=
  map (transformToEnd_point transform imu) cloud.

End Geometry.

(** ** LaserOdometry::pluginIMURotation and accumulateRotation *)

Section Pose.
Context `{Externals}.

(** The outputs [acx, acy, acz] are returned as a triple.  The caller
    passes the same objects for [bcx, bcy, bcz] and for the outputs; every
    sine and cosine of the inputs is read before the first output is
    written, so the aliasing is not visible. *)
Definition pluginIMURotation (bcx bcy bcz blx bly blz alx aly alz : Angle)
  : Angle * Angle * Angle :=
  let sbcx := ext_sin bcx in
  let cbcx := ext_cos bcx in
  let sbcy := ext_sin bcy in
  let cbcy := ext_cos bcy in
  let sbcz := ext_sin bcz in
  let cbcz := ext_cos bcz in

  let sblx := ext_sin blx in
  let cblx := ext_cos blx in
  let sbly := ext_sin bly in
  let cbly := ext_cos bly in
  let sblz := ext_sin blz in
  let cblz := ext_cos blz in

  let salx := ext_sin alx in
  let calx := ext_cos alx in
  let saly := ext_sin aly in
  let caly := ext_cos aly in
  let salz := ext_sin alz in
  let calz := ext_cos alz in

  let srx := - sbcx*(salx*sblx + calx*caly*cblx*cbly + calx*cblx*saly*sbly)
             - cbcx*cbcz*(calx*saly*(cbly*sblz - cblz*sblx*sbly)
                          - calx*caly*(sbly*sblz + cbly*cblz*sblx) + cblx*cblz*salx)
             - cbcx*sbcz*(calx*caly*(cblz*sbly - cbly*sblx*sblz)
                          - calx*saly*(cbly*cblz + sblx*sbly*sblz) + cblx*salx*sblz) in
  let acx := - ext_asin srx in

  let srycrx := (cbcy*sbcz - cbcz*sbcx*sbcy)*(calx*saly*(cbly*sblz - cblz*sblx*sbly)
                                              - calx*caly*(sbly*sblz + cbly*cblz*sblx) + cblx*cblz*salx)
                - (cbcy*cbcz + sbcx*sbcy*sbcz)*(calx*caly*(cblz*sbly - cbly*sblx*sblz)
                                                - calx*saly*(cbly*cblz + sblx*sbly*sblz) + cblx*salx*sblz)
                + cbcx*sbcy*(salx*sblx + calx*caly*cblx*cbly + calx*cblx*saly*sbly) in
  let crycrx := (cbcz*sbcy - cbcy*sbcx*sbcz)*(calx*caly*(cblz*sbly - cbly*sblx*sblz)
                                              - calx*saly*(cbly*cblz + sblx*sbly*sblz) + cblx*salx*sblz)
                - (sbcy*sbcz + cbcy*cbcz*sbcx)*(calx*saly*(cbly*sblz - cblz*sblx*sbly)
                                                - calx*caly*(sbly*sblz + cbly*cblz*sblx) + cblx*cblz*salx)
                + cbcx*cbcy*(salx*sblx + calx*caly*cblx*cbly + calx*cblx*saly*sbly) in
  let acy := ext_atan2 (srycrx / ext_cos acx) (crycrx / ext_cos acx) in

  let srzcrx := sbcx*(cblx*cbly*(calz*saly - caly*salx*salz) - cblx*sbly*(caly*calz + salx*saly*salz) + calx*salz*sblx)
                - cbcx*cbcz*((caly*calz + salx*saly*salz)*(cbly*sblz - cblz*sblx*sbly)
                             + (calz*saly - caly*salx*salz)*(sbly*sblz + cbly*cblz*sblx)
                             - calx*cblx*cblz*salz)
                + cbcx*sbcz*((caly*calz + salx*saly*salz)*(cbly*cblz + sblx*sbly*sblz)
                             + (calz*saly - caly*salx*salz)*(cblz*sbly - cbly*sblx*sblz)
                             + calx*cblx*salz*sblz) in
  let crzcrx := sbcx*(cblx*sbly*(caly*salz - calz*salx*saly) - cblx*cbly*(saly*salz + caly*calz*salx) + calx*calz*sblx)
                + cbcx*cbcz*((saly*salz + caly*calz*salx)*(sbly*sblz + cbly*cblz*sblx)
                             + (caly*salz - calz*salx*saly)*(cbly*sblz - cblz*sblx*sbly)
                             + calx*calz*cblx*cblz)
                - cbcx*sbcz*((saly*salz + caly*calz*salx)*(cblz*sbly - cbly*sblx*sblz)
                             + (caly*salz - calz*salx*saly)*(cbly*cblz + sblx*sbly*sblz)
                             - calx*calz*cblx*sblz) in
  let acz := ext_atan2 (srzcrx / ext_cos acx) (crzcrx / ext_cos acx) in
  (acx, acy, acz).

(** The active body: both rotations as affine matrices, their product, and
    its Euler angles, read back as [(oy, ox, oz)].  The result is the
    triple [(ox, oy, oz)]. *)
Definition accumulateRotation (cx cy cz lx ly lz : Angle) : Angle * Angle * Angle :=
  let current := getTransformation 0 0 0 cy cx cz in
  let last := getTransformation 0 0 0 ly lx lz in
  let '(oy_f, ox_f, oz_f) := getEulerAngles (mmul 4 last current) in
  (ox_f, oy_f, oz_f).

End Pose.

(** ** The odometry object *)

(** Modelled from the spec: [LaserOdometryParams] of LaserOdometry.h, the
    configuration options [scanPeriod], [ioRatio], [maxIterations],
    [deltaTAbort] and [deltaRAbort]. *)
Record LaserOdometryParams := mkParams {
  scanPeriod : Q;
  ioRatio : Z;
  maxIterations : nat;
  deltaTAbort : Q;
  deltaRAbort : Q
}.

(** The members of [LaserOdometry] named in LaserOdometry.cpp.  The eight
    IMU members are grouped in [imu]; the time stamps ([Time] is [int] in
    common.h) are kept as rationals, which covers integers. *)
Record LaserOdometry := mkLaserOdometry {
  params : LaserOdometryParams;
  systemInited : bool;
  frameCount : Z;

  timeCornerPointsSharp : Q;
  timeCornerPointsLessSharp : Q;
  timeSurfPointsFlat : Q;
  timeSurfPointsLessFlat : Q;
  timeLaserCloudFullRes : Q;
  timeImuTrans : Q;

  newCornerPointsSharp : bool;
  newCornerPointsLessSharp : bool;
  newSurfPointsFlat : bool;
  newSurfPointsLessFlat : bool;
  newLaserCloudFullRes : bool;
  newImuTrans : bool;

  cornerPointsSharp : Cloud;
  cornerPointsLessSharp : Cloud;
  surfPointsFlat : Cloud;
  surfPointsLessFlat : Cloud;
  laserCloudFullRes : Cloud;

  lastCornerCloud : Cloud;
  lastSurfaceCloud : Cloud;
  laserCloudOri : Cloud;
  coeffSel : Cloud;

  lastCornerKDTree : KdTreeFLANN;
  lastSurfaceKDTree : KdTreeFLANN;

  pointSearchCornerInd1 : list Z;
  pointSearchCornerInd2 : list Z;
  pointSearchSurfInd1 : list Z;
  pointSearchSurfInd2 : list Z;
  pointSearchSurfInd3 : list Z;

  transform : Twist;
  transformSum : Twist;
  imu : ImuTrans
}.

Definition ImuTrans_default : ImuTrans :=
  mkImuTrans 0 0 0 0 0 0 Vector3_zero Vector3_zero.

(** The constructor [LaserOdometry::LaserOdometry(params)]. *)
Definition LaserOdometry_new (p : LaserOdometryParams) : LaserOdometry := {|
  params := p;
  systemInited := false;
  frameCount := 0;
  timeCornerPointsSharp := 0;
  timeCornerPointsLessSharp := 0;
  timeSurfPointsFlat := 0;
  timeSurfPointsLessFlat := 0;
  timeLaserCloudFullRes := 0;
  timeImuTrans := 0;
  newCornerPointsSharp := false;
  newCornerPointsLessSharp := false;
  newSurfPointsFlat := false;
  newSurfPointsLessFlat := false;
  newLaserCloudFullRes := false;
  newImuTrans := false;
  cornerPointsSharp := [];
  cornerPointsLessSharp := [];
  surfPointsFlat := [];
  surfPointsLessFlat := [];
  laserCloudFullRes := [];
  lastCornerCloud := [];
  lastSurfaceCloud := [];
  laserCloudOri := [];
  coeffSel := [];
  lastCornerKDTree := None;
  lastSurfaceKDTree := None;
  pointSearchCornerInd1 := [];
  pointSearchCornerInd2 := [];
  pointSearchSurfInd1 := [];
  pointSearchSurfInd2 := [];
  pointSearchSurfInd3 := [];
  transform := Twist_default;
  transformSum := Twist_default;
  imu := ImuTrans_default
|}.

(** ** LaserOdometry::reset *)

Definition reset (st : LaserOdometry) : LaserOdometry := {|
  params := params st;
  systemInited := systemInited st;
  frameCount := frameCount st;
  timeCornerPointsSharp := timeCornerPointsSharp st;
  timeCornerPointsLessSharp := timeCornerPointsLessSharp st;
  timeSurfPointsFlat := timeSurfPointsFlat st;
  timeSurfPointsLessFlat := timeSurfPointsLessFlat st;
  timeLaserCloudFullRes := timeLaserCloudFullRes st;
  timeImuTrans := timeImuTrans st;
  newCornerPointsSharp := false;
  newCornerPointsLessSharp := false;
  newSurfPointsFlat := false;
  newSurfPointsLessFlat := false;
  newLaserCloudFullRes := false;
  newImuTrans := false;
  cornerPointsSharp := cornerPointsSharp st;
  cornerPointsLessSharp := cornerPointsLessSharp st;
  surfPointsFlat := surfPointsFlat st;
  surfPointsLessFlat := surfPointsLessFlat st;
  laserCloudFullRes := laserCloudFullRes st;
  lastCornerCloud := lastCornerCloud st;
  lastSurfaceCloud := lastSurfaceCloud st;
  laserCloudOri := laserCloudOri st;
  coeffSel := coeffSel st;
  lastCornerKDTree := lastCornerKDTree st;
  lastSurfaceKDTree := lastSurfaceKDTree st;
  pointSearchCornerInd1 := pointSearchCornerInd1 st;
  pointSearchCornerInd2 := pointSearchCornerInd2 st;
  pointSearchSurfInd1 := pointSearchSurfInd1 st;
  pointSearchSurfInd2 := pointSearchSurfInd2 st;
  pointSearchSurfInd3 := pointSearchSurfInd3 st;
  transform := transform st;
  transformSum := transformSum st;
  imu := imu st
|}.

(** ** LaserOdometry::hasNewData *)

Definition hasNewData (st : LaserOdometry) : bool :=
  newCornerPointsSharp st && newCornerPointsLessSharp st && newSurfPointsFlat st &&
  newSurfPointsLessFlat st && newLaserCloudFullRes st && newImuTrans st &&
  Qltb (fabs (timeCornerPointsSharp st - timeSurfPointsLessFlat st)) (5 # 1000) &&
  Qltb (fabs (timeCornerPointsLessSharp st - timeSurfPointsLessFlat st)) (5 # 1000) &&
  Qltb (fabs (timeSurfPointsFlat st - timeSurfPointsLessFlat st)) (5 # 1000) &&
  Qltb (fabs (timeLaserCloudFullRes st - timeSurfPointsLessFlat st)) (5 # 1000) &&
  Qltb (fabs (timeImuTrans st - timeSurfPointsLessFlat st)) (5 # 1000).

(** ** LaserOdometry::process, the initialization tick

    [st] is the object after [reset()]. *)
Definition process_init (st : LaserOdometry) : LaserOdometry := {|
  params := params st;
  systemInited := true;
  frameCount := frameCount st;
  timeCornerPointsSharp := timeCornerPointsSharp st;
  timeCornerPointsLessSharp := timeCornerPointsLessSharp st;
  timeSurfPointsFlat := timeSurfPointsFlat st;
  timeSurfPointsLessFlat := timeSurfPointsLessFlat st;
  timeLaserCloudFullRes := timeLaserCloudFullRes st;
  timeImuTrans := timeImuTrans st;
  newCornerPointsSharp := newCornerPointsSharp st;
  newCornerPointsLessSharp := newCornerPointsLessSharp st;
  newSurfPointsFlat := newSurfPointsFlat st;
  newSurfPointsLessFlat := newSurfPointsLessFlat st;
  newLaserCloudFullRes := newLaserCloudFullRes st;
  newImuTrans := newImuTrans st;
  cornerPointsSharp := cornerPointsSharp st;
  (* _cornerPointsLessSharp.swap(_lastCornerCloud) *)
  cornerPointsLessSharp := lastCornerCloud st;
  surfPointsFlat := surfPointsFlat st;
  (* _surfPointsLessFlat.swap(_lastSurfaceCloud) *)
  surfPointsLessFlat := lastSurfaceCloud st;
  laserCloudFullRes := laserCloudFullRes st;
  lastCornerCloud := cornerPointsLessSharp st;
  lastSurfaceCloud := surfPointsLessFlat st;
  laserCloudOri := laserCloudOri st;
  coeffSel := coeffSel st;
  lastCornerKDTree := setInputCloud (cornerPointsLessSharp st);
  lastSurfaceKDTree := setInputCloud (surfPointsLessFlat st);
  pointSearchCornerInd1 := pointSearchCornerInd1 st;
  pointSearchCornerInd2 := pointSearchCornerInd2 st;
  pointSearchSurfInd1 := pointSearchSurfInd1 st;
  pointSearchSurfInd2 := pointSearchSurfInd2 st;
  pointSearchSurfInd3 := pointSearchSurfInd3 st;
  transform := transform st;
  transformSum :=
    mkTwist (rot_x (transformSum st) + imuPitchStart (imu st))
            (rot_y (transformSum st))
            (rot_z (transformSum st) + imuRollStart (imu st))
            (pos (transformSum st));
  imu := imu st
|}.

(** ** LaserOdometry::process, the solver loop *)

(** What the solver loop reads and writes: members of the object and the
    locals [isDegenerate], [matP] and [isConverged] of [process]. *)
Record SolverState := mkSolver {
  so_transform : Twist;
  so_lastCornerCloud : Cloud;
  so_cornerInd1 : list Z;
  so_cornerInd2 : list Z;
  so_surfInd1 : list Z;
  so_surfInd2 : list Z;
  so_surfInd3 : list Z;
  so_laserCloudOri : Cloud;
  so_coeffSel : Cloud;
  so_isDegenerate : bool;
  so_matP : Mat;
  so_isConverged : bool
}.

Definition so_clear (s : SolverState) : SolverState :=
  mkSolver (so_transform s) (so_lastCornerCloud s)
           (so_cornerInd1 s) (so_cornerInd2 s)
           (so_surfInd1 s) (so_surfInd2 s) (so_surfInd3 s)
           [] []
           (so_isDegenerate s) (so_matP s) (so_isConverged s).

Definition so_push (s : SolverState) (ori coeff : PointXYZI) : SolverState :=
  mkSolver (so_transform s) (so_lastCornerCloud s)
           (so_cornerInd1 s) (so_cornerInd2 s)
           (so_surfInd1 s) (so_surfInd2 s) (so_surfInd3 s)
           (so_laserCloudOri s ++ [ori]) (so_coeffSel s ++ [coeff])
           (so_isDegenerate s) (so_matP s) (so_isConverged s).

Definition so_set_corner (s : SolverState) (cloud : Cloud) (ind1 ind2 : list Z) : SolverState :=
  mkSolver (so_transform s) cloud
           ind1 ind2
           (so_surfInd1 s) (so_surfInd2 s) (so_surfInd3 s)
           (so_laserCloudOri s) (so_coeffSel s)
           (so_isDegenerate s) (so_matP s) (so_isConverged s).

Definition so_set_surf (s : SolverState) (ind1 ind2 ind3 : list Z) : SolverState :=
  mkSolver (so_transform s) (so_lastCornerCloud s)
           (so_cornerInd1 s) (so_cornerInd2 s)
           ind1 ind2 ind3
           (so_laserCloudOri s) (so_coeffSel s)
           (so_isDegenerate s) (so_matP s) (so_isConverged s).

Definition so_set_update (s : SolverState) (t : Twist) (deg : bool) (matP : Mat) (conv : bool)
  : SolverState :=
  mkSolver t (so_lastCornerCloud s)
           (so_cornerInd1 s) (so_cornerInd2 s)
           (so_surfInd1 s) (so_surfInd2 s) (so_surfInd3 s)
           (so_laserCloudOri s) (so_coeffSel s)
           deg matP conv.

Section Correspondence.
Context `{Externals}.

(** *** Corner points: the second neighbour on another ring *)

(** [for (size_t j = closestPointInd + 1; j < cornerPointsSharpNum; j++)],
    entered at [j] with [fuel] iterations left before [j] reaches the bound.
    [acc] is [(minPointSqDis2, minPointInd2)]. *)
Fixpoint cornerForward (cloud : Cloud) (pointSel : PointXYZI) (closestPointScan : Z)
    (fuel : nat) (j : Z) (acc : Q * Z) : Run (Q * Z) :=
  match fuel with
  | O => Done acc
  | S fuel' =>
    pj ← at_ cloud j;
    if Qgtb (inject_Z (to_size_t (to_int (intensity pj)))) (inject_Z closestPointScan + (5 # 2))
    then Done acc
    else
      let pointSqDis := calcSquaredDiff pj pointSel in
      let acc' :=
        if (to_int (intensity pj) >? closestPointScan)%Z
        then if Qltb pointSqDis (fst acc) then (pointSqDis, j) else acc
        else acc in
      cornerForward cloud pointSel closestPointScan fuel' (j + 1)%Z acc'
  end.

(** [for (int j = closestPointInd - 1; j >= 0; j--)], entered with
    [j = n - 1]. *)
Fixpoint cornerBackward (cloud : Cloud) (pointSel : PointXYZI) (closestPointScan : Z)
    (n : nat) (acc : Q * Z) : Run (Q * Z) :=
  match n with
  | O => Done acc
  | S j =>
    pj ← at_ cloud (Z.of_nat j);
    if Qltb (inject_Z (to_int (intensity pj))) (inject_Z closestPointScan - (5 # 2))
    then Done acc
    else
      let pointSqDis := calcSquaredDiff pj pointSel in
      let acc' :=
        if (to_int (intensity pj) <? closestPointScan)%Z
        then if Qltb pointSqDis (fst acc) then (pointSqDis, Z.of_nat j) else acc
        else acc in
      cornerBackward cloud pointSel closestPointScan j acc'
  end.

(** The search of one sharp point: [(closestPointInd, minPointInd2)]. *)
Definition cornerSearch (kd : KdTreeFLANN) (cloud : Cloud) (pointSel : PointXYZI)
    (cornerPointsSharpNum : nat) : Run (Z * Z) :=
  let '(pointSearchInd0, pointSearchSqDis0) := nearestKSearch kd pointSel in
  if Qltb pointSearchSqDis0 25 then
    let closestPointInd := pointSearchInd0 in
    pc ← at_ cloud closestPointInd;
    let closestPointScan := to_int (intensity pc) in
    let j0 := to_size_t (closestPointInd + 1) in
    fw ← cornerForward cloud pointSel closestPointScan
           (Z.to_nat (Z.of_nat cornerPointsSharpNum - j0)) j0 (25, (-1)%Z);
    bw ← cornerBackward cloud pointSel closestPointScan (Z.to_nat closestPointInd) fw;
    Done (closestPointInd, snd bw)
  else Done ((-1)%Z, (-1)%Z).

(** The point-to-line residual of a sharp point: the coefficient to store,
    if the correspondence is kept.

    [l12] is zero when the two neighbours coincide.  Then [ld2] and the
    three direction entries are infinities or NaNs: from iteration 5 on the
    weight [s = 1 - 1.8 * fabs(ld2)] is minus infinity or a NaN and the test
    [s > 0.1] fails; before, [s = 1] and [ld2 != 0] holds, so a coefficient
    that is not finite is stored.  When only [a012] is zero, [ld2] is 0 and
    the correspondence is dropped whatever the direction entries are. *)
Definition cornerResidual (iterCount : nat) (pointSel tripod1 tripod2 : PointXYZI)
  : Run (option PointXYZI) :=
  let x0 := p_x pointSel in
  let y0 := p_y pointSel in
  let z0 := p_z pointSel in
  let x1 := p_x tripod1 in
  let y1 := p_y tripod1 in
  let z1 := p_z tripod1 in
  let x2 := p_x tripod2 in
  let y2 := p_y tripod2 in
  let z2 := p_z tripod2 in

  let a012 := ext_sqrt (((x0 - x1)*(y0 - y2) - (x0 - x2)*(y0 - y1))
                        * ((x0 - x1)*(y0 - y2) - (x0 - x2)*(y0 - y1))
                        + ((x0 - x1)*(z0 - z2) - (x0 - x2)*(z0 - z1))
                          * ((x0 - x1)*(z0 - z2) - (x0 - x2)*(z0 - z1))
                        + ((y0 - y1)*(z0 - z2) - (y0 - y2)*(z0 - z1))
                          * ((y0 - y1)*(z0 - z2) - (y0 - y2)*(z0 - z1))) in

  let l12 := ext_sqrt ((x1 - x2)*(x1 - x2) + (y1 - y2)*(y1 - y2) + (z1 - z2)*(z1 - z2)) in

  if Qeq_bool l12 0 then
    if (5 <=? iterCount)%nat then Done None else NotFinite
  else

  let la := ((y1 - y2)*((x0 - x1)*(y0 - y2) - (x0 - x2)*(y0 - y1))
             + (z1 - z2)*((x0 - x1)*(z0 - z2) - (x0 - x2)*(z0 - z1))) / a012 / l12 in

  let lb := -((x1 - x2)*((x0 - x1)*(y0 - y2) - (x0 - x2)*(y0 - y1))
              - (z1 - z2)*((y0 - y1)*(z0 - z2) - (y0 - y2)*(z0 - z1))) / a012 / l12 in

  let lc := -((x1 - x2)*((x0 - x1)*(z0 - z2) - (x0 - x2)*(z0 - z1))
              + (y1 - y2)*((y0 - y1)*(z0 - z2) - (y0 - y2)*(z0 - z1))) / a012 / l12 in

  let ld2 := a012 / l12 in

  let s := if (5 <=? iterCount)%nat then 1 - (18 # 10) * fabs ld2 else 1 in

  let coeff := mkPoint (s * la) (s * lb) (s * lc) (s * ld2) in

  Done (if Qgtb s (1 # 10) && Qneqb ld2 0 then Some coeff else None).

(** The body of [for (size_t i = 0; i < cornerPointsSharpNum; i++)].
    [pointSel] is the local of the enclosing iteration: the call
    [transformToStart(_cornerPointsSharp->points[i], pointSel)] that would
    assign it is commented out in the source. *)
Definition cornerPoint (kd : KdTreeFLANN) (cornerPointsSharp : Cloud) (iterCount : nat)
    (pointSel : PointXYZI) (s : SolverState) (i : nat) : Run SolverState :=
  s1 ← (if (iterCount mod 5 =? 0)%nat then
          let cloud := removeNaNFromPointCloud (so_lastCornerCloud s) in
          r ← cornerSearch kd cloud pointSel (length cornerPointsSharp);
          Done (so_set_corner s cloud (<[i := fst r]> (so_cornerInd1 s))
                                      (<[i := snd r]> (so_cornerInd2 s)))
        else Done s);
  k2 ← ind_at (so_cornerInd2 s1) i;
  if (0 <=? k2)%Z then
    k1 ← ind_at (so_cornerInd1 s1) i;
    tripod1 ← at_ (so_lastCornerCloud s1) k1;
    tripod2 ← at_ (so_lastCornerCloud s1) k2;
    r ← cornerResidual iterCount pointSel tripod1 tripod2;
    match r with
    | Some coeff =>
      q ← at_ cornerPointsSharp (Z.of_nat i);
      Done (so_push s1 q coeff)
    | None => Done s1
    end
  else Done s1.

End Correspondence.

Section SurfaceCorrespondence.
Context `{Externals}.

(** *** Flat points: two more neighbours, one per side *)

(** [acc] is [(minPointSqDis2, minPointInd2, minPointSqDis3, minPointInd3)]. *)
Definition SurfAcc : Type := Q * Z * Q * Z.

(** [for (size_t j = closestPointInd + 1; j < surfPointsFlatNum; j++)] *)
Fixpoint surfForward (cloud : Cloud) (pointSel : PointXYZI) (closestPointScan : Z)
    (fuel : nat) (j : Z) (acc : SurfAcc) : Run SurfAcc :=
  match fuel with
  | O => Done acc
  | S fuel' =>
    pj ← at_ cloud j;
    if Qgtb (inject_Z (to_int (intensity pj))) (inject_Z closestPointScan + (5 # 2))
    then Done acc
    else
      let pointSqDis := calcSquaredDiff pj pointSel in
      let '(d2, i2, d3, i3) := acc in
      let acc' :=
        if (to_int (intensity pj) <=? closestPointScan)%Z
        then if Qltb pointSqDis d2 then (pointSqDis, j, d3, i3) else acc
        else if Qltb pointSqDis d3 then (d2, i2, pointSqDis, j) else acc in
      surfForward cloud pointSel closestPointScan fuel' (j + 1)%Z acc'
  end.

(** [for (int j = closestPointInd - 1; j >= 0; j--)], entered with
    [j = n - 1]. *)
Fixpoint surfBackward (cloud : Cloud) (pointSel : PointXYZI) (closestPointScan : Z)
    (n : nat) (acc : SurfAcc) : Run SurfAcc :=
  match n with
  | O => Done acc
  | S j =>
    pj ← at_ cloud (Z.of_nat j);
    if Qltb (inject_Z (to_int (intensity pj))) (inject_Z closestPointScan - (5 # 2))
    then Done acc
    else
      let pointSqDis := calcSquaredDiff pj pointSel in
      let '(d2, i2, d3, i3) := acc in
      let acc' :=
        if (closestPointScan <=? to_int (intensity pj))%Z
        then if Qltb pointSqDis d2 then (pointSqDis, Z.of_nat j, d3, i3) else acc
        else if Qltb pointSqDis d3 then (d2, i2, pointSqDis, Z.of_nat j) else acc in
      surfBackward cloud pointSel closestPointScan j acc'
  end.

(** The search of one flat point:
    [(closestPointInd, minPointInd2, minPointInd3)]. *)
Definition surfSearch (kd : KdTreeFLANN) (cloud : Cloud) (pointSel : PointXYZI)
    (surfPointsFlatNum : nat) : Run (Z * Z * Z) :=
  let '(pointSearchInd0, pointSearchSqDis0) := nearestKSearch kd pointSel in
  if Qltb pointSearchSqDis0 25 then
    let closestPointInd := pointSearchInd0 in
    pc ← at_ cloud closestPointInd;
    let closestPointScan := to_int (intensity pc) in
    let j0 := to_size_t (closestPointInd + 1) in
    fw ← surfForward cloud pointSel closestPointScan
           (Z.to_nat (Z.of_nat surfPointsFlatNum - j0)) j0 (25, (-1)%Z, 25, (-1)%Z);
    bw ← surfBackward cloud pointSel closestPointScan (Z.to_nat closestPointInd) fw;
    let '(_, i2, _, i3) := bw in
    Done (closestPointInd, i2, i3)
  else Done ((-1)%Z, (-1)%Z, (-1)%Z).

(** The point-to-plane residual of a flat point: the coefficient to store,
    if the correspondence is kept.

    [ps] is zero when the three neighbours lie on one line.  Then the
    plane entries and [pd2] are infinities or NaNs: from iteration 5 on the
    weight [s] is minus infinity or a NaN and the test [s > 0.1] fails;
    before, [s = 1] and [pd2 != 0] holds, so a coefficient that is not
    finite is stored.  From iteration 5 on the weight is also divided by
    [sqrt(calcPointDistance(pointSel))], which is zero for [pointSel] at
    the origin: [s] is minus infinity or a NaN again. *)
Definition surfResidual (iterCount : nat) (pointSel tripod1 tripod2 tripod3 : PointXYZI)
  : Run (option PointXYZI) :=
  let pa := (p_y tripod2 - p_y tripod1) * (p_z tripod3 - p_z tripod1)
            - (p_y tripod3 - p_y tripod1) * (p_z tripod2 - p_z tripod1) in
  let pb := (p_z tripod2 - p_z tripod1) * (p_x tripod3 - p_x tripod1)
            - (p_z tripod3 - p_z tripod1) * (p_x tripod2 - p_x tripod1) in
  let pc := (p_x tripod2 - p_x tripod1) * (p_y tripod3 - p_y tripod1)
            - (p_x tripod3 - p_x tripod1) * (p_y tripod2 - p_y tripod1) in
  let pd := -(pa * p_x tripod1 + pb * p_y tripod1 + pc * p_z tripod1) in

  let ps := ext_sqrt (pa * pa + pb * pb + pc * pc) in
  if Qeq_bool ps 0 then
    if (5 <=? iterCount)%nat then Done None else NotFinite
  else
  let pa := pa / ps in
  let pb := pb / ps in
  let pc := pc / ps in
  let pd := pd / ps in

  let pd2 := pa * p_x pointSel + pb * p_y pointSel + pc * p_z pointSel + pd in

  if (5 <=? iterCount)%nat && Qeq_bool (ext_sqrt (calcPointDistance pointSel)) 0 then Done None
  else

  let s := if (5 <=? iterCount)%nat
           then 1 - (18 # 10) * fabs pd2 / ext_sqrt (calcPointDistance pointSel)
           else 1 in

  let coeff := mkPoint (s * pa) (s * pb) (s * pc) (s * pd2) in

  Done (if Qgtb s (1 # 10) && Qneqb pd2 0 then Some coeff else None).

(** The body of [for (size_t i = 0; i < surfPointsFlatNum; i++)]; here too
    the call of [transformToStart] is commented out in the source. *)
Definition surfPoint (kd : KdTreeFLANN) (lastSurfaceCloud surfPointsFlat : Cloud)
    (iterCount : nat) (pointSel : PointXYZI) (s : SolverState) (i : nat) : Run SolverState :=
  s1 ← (if (iterCount mod 5 =? 0)%nat then
          r ← surfSearch kd lastSurfaceCloud pointSel (length surfPointsFlat);
          let '(i1, i2, i3) := r in
          Done (so_set_surf s (<[i := i1]> (so_surfInd1 s))
                              (<[i := i2]> (so_surfInd2 s))
                              (<[i := i3]> (so_surfInd3 s)))
        else Done s);
  k2 ← ind_at (so_surfInd2 s1) i;
  if (0 <=? k2)%Z then
    k3 ← ind_at (so_surfInd3 s1) i;
    if (0 <=? k3)%Z then
      k1 ← ind_at (so_surfInd1 s1) i;
      tripod1 ← at_ lastSurfaceCloud k1;
      tripod2 ← at_ lastSurfaceCloud k2;
      tripod3 ← at_ lastSurfaceCloud k3;
      r ← surfResidual iterCount pointSel tripod1 tripod2 tripod3;
      match r with
      | Some coeff =>
        q ← at_ surfPointsFlat (Z.of_nat i);
        Done (so_push s1 q coeff)
      | None => Done s1
      end
    else Done s1
  else Done s1.

(** A C++ [for] loop over [i = 0 .. n-1] whose body may stop the run. *)
Definition for_each {S : Type} (body : S -> nat -> Run S) (n : nat) (s : S) : Run S :=
  fold_left (fun acc i => s' ← acc; body s' i) (seq 0 n) (Done s).

End SurfaceCorrespondence.

(** ** LaserOdometry::process, the normal equations *)

Section Solver.
Context `{Externals}.

(** One row of [matA] and one entry of [matB], by the branch
    [selectMethodType == 1], the only one taken. *)
Definition jacobianRow (transform : Twist) (pointOri coeff : PointXYZI) : Vec * Q :=
  let s := 1 in

  let srx := ext_sin (s * rot_x transform) in
  let crx := ext_cos (s * rot_x transform) in
  let sry := ext_sin (s * rot_y transform) in
  let cry := ext_cos (s * rot_y transform) in
  let srz := ext_sin (s * rot_z transform) in
  let crz := ext_cos (s * rot_z transform) in
  let tx := s * v_x (pos transform) in
  let ty := s * v_y (pos transform) in
  let tz := s * v_z (pos transform) in

  let ox := p_x pointOri in
  let oy := p_y pointOri in
  let oz := p_z pointOri in
  let cx := p_x coeff in
  let cy := p_y coeff in
  let cz := p_z coeff in

  let arx := s * (- ox * (crx * sry * srz)
                  + oy * (crx * crz * sry)
                  + oz * (srx * sry)
                  + tx * (crx * sry * srz)
                  - ty * (crx * crz * sry)
                  - tz * (srx * sry)) * cx
           + s * (ox * (srx * srz)
                  - oy * (crz * srx)
                  + oz * crx
                  - tx * (srx * srz)
                  + ty * (crz * srx)
                  - tz * (crx)) * cy
           + s * (ox * (crx * cry * srz)
                  - oy * (crx * cry * crz)
                  - oz * (cry * srx)
                  - tx * (crx * cry * srz)
                  + ty * (crx * cry * crz)
                  + tz * (cry * srx)) * cz in

  let ary := s * (- ox * (crz * sry + cry * srx * srz)
                  - oy * (sry * srz - cry * crz * srx)
                  - oz * (crx * cry)
                  + tx * (crz * sry + cry * srx * srz)
                  + ty * (sry * srz - cry * crz * srx)
                  + tz * (crx * cry)) * cx
           + s * (ox * (cry * crz - srx * sry * srz)
                  + oy * (cry * srz + crz * srx * sry)
                  - oz * (crx * sry)
                  - tx * (cry * crz - srx * sry * srz)
                  - ty * (cry * srz + crz * srx * sry)
                  + tz * (crx * sry)) * cz in

  let arz := s * (- ox * (cry * srz + crz * srx * sry)
                  + oy * (cry * crz - srx * sry * srz)
                  + tx * (cry * srz + crz * srx * sry)
                  - ty * (cry * crz - srx * sry * srz)) * cx
           + s * (- ox * (crx * crz)
                  - oy * (crx * srz)
                  + tx * crx * crz
                  + ty * crx * srz) * cy
           + s * (ox * (cry * crz * srx - sry * srz)
                  + oy * (crz * sry + cry * srx * srz)
                  + tx * (sry * srz - cry * crz * srx)
                  - ty * (crz * sry + cry * srx * srz)) * cz in

  let atx := - s * (cry * crz - srx * sry * srz) * cx
             + s * (crx * srz) * cy
             - s * (crz * sry + cry * srx * srz) * cz in
  let aty := - s * (cry * srz + crz * srx * sry) * cx
             - s * (crx * crz) * cy
             - s * (sry * srz - cry * crz * srx) * cz in
  let atz := s * (crx * sry) * cx
             - s * (srx) * cy
             - s * (crx * cry) * cz in

  let d2 := intensity coeff in
  ([arx; ary; arz; atx; aty; atz], - (5 # 100) * d2).

(** *** The degeneracy analysis of iteration 0 *)

Definition eignThre : Vec := [10; 10; 10; 10; 10; 10].

(** [for (int j = 0; j < 6; j++) matV2(i, j) = 0] *)
Definition zeroRow (i : nat) (m : Mat) : Mat :=
  <[i := map (fun _ => 0) (nth i m [])]> m.

(** [for (int i = 5; i >= 0; i--)], entered with [i = n - 1]: the pair
    [(isDegenerate, matV2)] when the loop is left. *)
Fixpoint degeneracyScan (n : nat) (matE : Vec) (matV2 : Mat) (isDegenerate : bool)
  : bool * Mat :=
  match n with
  | O => (isDegenerate, matV2)
  | S i =>
    if Qltb (vget matE i) (vget eignThre i)
    then degeneracyScan i matE (zeroRow i matV2) true
    else (isDegenerate, matV2)
  end.

(** [(isDegenerate, matP)] from the eigenvalues [matE] and the
    eigenvectors [matV] of [matAtA]. *)
Definition degeneracy (matE : Vec) (matV : Mat) : bool * Mat :=
  let matV2 := matV in
  let '(isDegenerate, matV2) := degeneracyScan 6 matE matV2 false in
  (isDegenerate, mmul 6 (inverse matV) matV2).

(** [if (isDegenerate) matX = matP * matX] *)
Definition projectUpdate (isDegenerate : bool) (matP : Mat) (matX : Vec) : Vec :=
  if isDegenerate then mvmul matP matX else matX.

End Solver.

Section Process.
Context `{Externals}.

(** [_transform.rot_* = _transform.rot_*.rad() + matX(k, 0)] and
    [_transform.pos.*() += matX(k, 0)], then the replacement of every
    non-finite component by zero. *)
Definition applyUpdate (t : Twist) (matX : Vec) : Twist :=
  let rx := rot_x t + vget matX 0 in
  let ry := rot_y t + vget matX 1 in
  let rz := rot_z t + vget matX 2 in
  let px := v_x (pos t) + vget matX 3 in
  let py := v_y (pos t) + vget matX 4 in
  let pz := v_z (pos t) + vget matX 5 in
  mkTwist (if pcl_isfinite rx then rx else 0)
          (if pcl_isfinite ry then ry else 0)
          (if pcl_isfinite rz then rz else 0)
          (mkVector3 (if pcl_isfinite px then px else 0)
                     (if pcl_isfinite py then py else 0)
                     (if pcl_isfinite pz then pz else 0)).

(** The second half of an iteration, from [pointSelNum] on: nothing if
    fewer than 10 correspondences were selected ([continue]), otherwise the
    normal equations, the degeneracy analysis on iteration 0, the update of
    [_transform] and the convergence test. *)
Definition updateStep (st : LaserOdometry) (iterCount : nat) (s : SolverState) : SolverState :=
  let pointSelNum := length (so_laserCloudOri s) in
  if (pointSelNum <? 10)%nat then s
  else
    let rows := zip_with (jacobianRow (so_transform s)) (so_laserCloudOri s) (so_coeffSel s) in
    let matA := map fst rows in
    let matB := map snd rows in
    let matAt := transpose 6 matA in
    let matAtA := mmul 6 matAt matA in
    let matAtB := mvmul matAt matB in
    let matX := colPivHouseholderQr_solve matAtA matAtB in
    let dg :=
      if (iterCount =? 0)%nat
      then let '(matE, matV) := SelfAdjointEigenSolver matAtA in degeneracy matE matV
      else (so_isDegenerate s, so_matP s) in
    let isDegenerate := fst dg in
    let matP := snd dg in
    let matX := projectUpdate isDegenerate matP matX in
    let t := applyUpdate (so_transform s) matX in
    let deltaR := ext_sqrt (rad2deg (vget matX 0) * rad2deg (vget matX 0) +
                            rad2deg (vget matX 1) * rad2deg (vget matX 1) +
                            rad2deg (vget matX 2) * rad2deg (vget matX 2)) in
    let deltaT := ext_sqrt ((vget matX 3 * 100) * (vget matX 3 * 100) +
                            (vget matX 4 * 100) * (vget matX 4 * 100) +
                            (vget matX 5 * 100) * (vget matX 5 * 100)) in
    let isConverged := Qltb deltaR (deltaRAbort (params st))
                       && Qltb deltaT (deltaTAbort (params st)) in
    so_set_update s t isDegenerate matP isConverged.

(** The body of [for (size_t iterCount = 0; iterCount < maxIterations;
    iterCount++)].  [pointSel] is declared here and default-constructed.
    [so_isConverged] of the result tells whether the loop is left by
    [break]. *)
Definition iteration (st : LaserOdometry) (cornerPointsSharp : Cloud) (iterCount : nat)
    (s : SolverState) : Run SolverState :=
  let pointSel := PointXYZI_default in
  let s := so_clear s in
  s ← for_each (cornerPoint (lastCornerKDTree st) cornerPointsSharp iterCount pointSel)
        (length cornerPointsSharp) s;
  s ← for_each (surfPoint (lastSurfaceKDTree st) (lastSurfaceCloud st) (surfPointsFlat st)
                  iterCount pointSel)
        (length (surfPointsFlat st)) s;
  Done (updateStep st iterCount s).

Fixpoint solverLoop (st : LaserOdometry) (cornerPointsSharp : Cloud) (fuel iterCount : nat)
    (s : SolverState) : Run SolverState :=
  match fuel with
  | O => Done s
  | S fuel' =>
    s1 ← iteration st cornerPointsSharp iterCount s;
    if so_isConverged s1 then Done s1
    else solverLoop st cornerPointsSharp fuel' (S iterCount) s1
  end.

(** [_transform.pos -= _imuVeloFromStart * _params.scanPeriod]: the
    incremental transform with which the solver loop is entered. *)
Definition transformPrior (st : LaserOdometry) : Twist :=
  mkTwist (rot_x (transform st)) (rot_y (transform st)) (rot_z (transform st))
          (vsub (pos (transform st))
                (vscale (imuVeloFromStart (imu st)) (scanPeriod (params st)))).

(** The members and locals as they are when the test of the two cloud
    sizes is reached. *)
Definition solverEntry (st : LaserOdometry) : SolverState :=
  mkSolver (transformPrior st) (lastCornerCloud st)
           (pointSearchCornerInd1 st) (pointSearchCornerInd2 st)
           (pointSearchSurfInd1 st) (pointSearchSurfInd2 st) (pointSearchSurfInd3 st)
           (laserCloudOri st) (coeffSel st)
           false [] false.

(** The block guarded by
    [lastCornerCloudSize > 10 && lastSurfaceCloudSize > 100]: the sharp
    cloud after [removeNaNFromPointCloud] and the state the loop ends in. *)
Definition solve (st : LaserOdometry) : Run (Cloud * SolverState) :=
  let s := solverEntry st in
  let sharp := removeNaNFromPointCloud (cornerPointsSharp st) in
  let cornerPointsSharpNum := length sharp in
  let surfPointsFlatNum := length (surfPointsFlat st) in
  let s := so_set_corner s (so_lastCornerCloud s)
             (resize cornerPointsSharpNum 0%Z (so_cornerInd1 s))
             (resize cornerPointsSharpNum 0%Z (so_cornerInd2 s)) in
  let s := so_set_surf s
             (resize surfPointsFlatNum 0%Z (so_surfInd1 s))
             (resize surfPointsFlatNum 0%Z (so_surfInd2 s))
             (resize surfPointsFlatNum 0%Z (so_surfInd3 s)) in
  s' ← solverLoop st sharp (maxIterations (params st)) 0 s;
  Done (sharp, s').

(** The accumulated pose after the tick, from the incremental transform
    [t] the tick ends with. *)
Definition accumulatePose (st : LaserOdometry) (t : Twist) : Twist :=
  let corr := 1 in
  let '(rx, ry, rz) :=
    accumulateRotation (rot_x (transformSum st)) (rot_y (transformSum st))
                       (rot_z (transformSum st))
                       (- rot_x t) (- rot_y t * corr) (- rot_z t) in
  let v := mkVector3 (v_x (pos t) - v_x (imuShiftFromStart (imu st)))
                     (v_y (pos t) - v_y (imuShiftFromStart (imu st)))
                     (v_z (pos t) * corr - v_z (imuShiftFromStart (imu st))) in
  let v := rotateZXY v rz rx ry in
  let trans := vsub (pos (transformSum st)) v in
  let '(rx, ry, rz) :=
    pluginIMURotation rx ry rz
                      (imuPitchStart (imu st)) (imuYawStart (imu st)) (imuRollStart (imu st))
                      (imuPitchEnd (imu st)) (imuYawEnd (imu st)) (imuRollEnd (imu st)) in
  mkTwist rx ry rz trans.

(** The tick from [_frameCount++] to [return true], given the sharp cloud
    and the solver state the guarded block leaves.  [st] is the object
    after [reset()]. *)
Definition process_finish (st : LaserOdometry) (sharp : Cloud) (s : SolverState)
  : LaserOdometry := {|
  params := params st;
  systemInited := systemInited st;
  frameCount := frameCount st + 1;
  timeCornerPointsSharp := timeCornerPointsSharp st;
  timeCornerPointsLessSharp := timeCornerPointsLessSharp st;
  timeSurfPointsFlat := timeSurfPointsFlat st;
  timeSurfPointsLessFlat := timeSurfPointsLessFlat st;
  timeLaserCloudFullRes := timeLaserCloudFullRes st;
  timeImuTrans := timeImuTrans st;
  newCornerPointsSharp := newCornerPointsSharp st;
  newCornerPointsLessSharp := newCornerPointsLessSharp st;
  newSurfPointsFlat := newSurfPointsFlat st;
  newSurfPointsLessFlat := newSurfPointsLessFlat st;
  newLaserCloudFullRes := newLaserCloudFullRes st;
  newImuTrans := newImuTrans st;
  cornerPointsSharp := sharp;
  (* transformToEnd on both clouds, then the two swaps *)
  cornerPointsLessSharp := so_lastCornerCloud s;
  surfPointsFlat := surfPointsFlat st;
  surfPointsLessFlat := lastSurfaceCloud st;
  laserCloudFullRes := laserCloudFullRes st;
  lastCornerCloud := transformToEnd (so_transform s) (imu st) (cornerPointsLessSharp st);
  lastSurfaceCloud := transformToEnd (so_transform s) (imu st) (surfPointsLessFlat st);
  laserCloudOri := so_laserCloudOri s;
  coeffSel := so_coeffSel s;
  (* the two setInputCloud calls at the end of the tick are commented out *)
  lastCornerKDTree := lastCornerKDTree st;
  lastSurfaceKDTree := lastSurfaceKDTree st;
  pointSearchCornerInd1 := so_cornerInd1 s;
  pointSearchCornerInd2 := so_cornerInd2 s;
  pointSearchSurfInd1 := so_surfInd1 s;
  pointSearchSurfInd2 := so_surfInd2 s;
  pointSearchSurfInd3 := so_surfInd3 s;
  transform := so_transform s;
  transformSum := accumulatePose st (so_transform s);
  imu := imu st
|}.

(** ** LaserOdometry::process *)

Definition process (st : LaserOdometry) : Run (LaserOdometry * bool) :=
  if negb (hasNewData st) then Done (st, false)
  else
    let st := reset st in
    if negb (systemInited st) then Done (process_init st, false)
    else
      r ← (if (10 <? length (lastCornerCloud st))%nat && (100 <? length (lastSurfaceCloud st))%nat
           then solve st
           else Done (cornerPointsSharp st, solverEntry st));
      Done (process_finish st (fst r) (snd r), true).

(** ** LaserOdometry::generateRegisteredCloud

    The object, the caller's [registered_cloud] and the returned value.
    The copy into [registered_cloud] is commented out in the source. *)
Definition generateRegisteredCloud (st : LaserOdometry) (registered_cloud : Cloud)
  : LaserOdometry * Cloud * bool :=
  if (ioRatio (params st) <? 2)%Z || (Z.rem (frameCount st) (ioRatio (params st)) =? 1)%Z
  then
    ({| params := params st;
        systemInited := systemInited st;
        frameCount := frameCount st;
        timeCornerPointsSharp := timeCornerPointsSharp st;
        timeCornerPointsLessSharp := timeCornerPointsLessSharp st;
        timeSurfPointsFlat := timeSurfPointsFlat st;
        timeSurfPointsLessFlat := timeSurfPointsLessFlat st;
        timeLaserCloudFullRes := timeLaserCloudFullRes st;
        timeImuTrans := timeImuTrans st;
        newCornerPointsSharp := newCornerPointsSharp st;
        newCornerPointsLessSharp := newCornerPointsLessSharp st;
        newSurfPointsFlat := newSurfPointsFlat st;
        newSurfPointsLessFlat := newSurfPointsLessFlat st;
        newLaserCloudFullRes := newLaserCloudFullRes st;
        newImuTrans := newImuTrans st;
        cornerPointsSharp := cornerPointsSharp st;
        cornerPointsLessSharp := cornerPointsLessSharp st;
        surfPointsFlat := surfPointsFlat st;
        surfPointsLessFlat := surfPointsLessFlat st;
        laserCloudFullRes := transformToEnd (transform st) (imu st) (laserCloudFullRes st);
        lastCornerCloud := lastCornerCloud st;
        lastSurfaceCloud := lastSurfaceCloud st;
        laserCloudOri := laserCloudOri st;
        coeffSel := coeffSel st;
        lastCornerKDTree := lastCornerKDTree st;
        lastSurfaceKDTree := lastSurfaceKDTree st;
        pointSearchCornerInd1 := pointSearchCornerInd1 st;
        pointSearchCornerInd2 := pointSearchCornerInd2 st;
        pointSearchSurfInd1 := pointSearchSurfInd1 st;
        pointSearchSurfInd2 := pointSearchSurfInd2 st;
        pointSearchSurfInd3 := pointSearchSurfInd3 st;
        transform := transform st;
        transformSum := transformSum st;
        imu := imu st |},
     registered_cloud, true)
  else (st, registered_cloud, false).

End Process.

(** ** common.h: savePoseToFile *)

(** What [operator<<] has put into a stream: numbers and pieces of text,
    in the order of insertion.  How a number is printed is the stream's
    business. *)
Inductive Item : Type :=
  | Num (d : Q)
  | Text (s : string).

(** The files are a map from names to contents; a file that does not
    exist yet is created empty by opening it with [std::ios_base::app].
    Every file of the map is taken to open.  The source does not test
    the stream: when [open] fails the insertions have no effect and no
    file changes, and such a call is left out of [savePoseToFile] below. *)
Definition contents (fs : gmap string (list Item)) (filename : string) : list Item :=
  default [] (fs !! filename).

Definition savePoseToFile (rot : Mat) (trans : Vec) (filename : string)
    (fs : gmap string (list Item)) : gmap string (list Item) :=
  let line :=
    [ Num (mget rot 0 0); Text " "; Num (mget rot 0 1); Text " "; Num (mget rot 0 2); Text " ";
      Num (vget trans 0); Text " ";
      Num (mget rot 1 0); Text " "; Num (mget rot 1 1); Text " "; Num (mget rot 1 2); Text " ";
      Num (vget trans 1); Text " ";
      Num (mget rot 2 0); Text " "; Num (mget rot 2 1); Text " "; Num (mget rot 2 2); Text " ";
      Num (vget trans 2); Text (String (Ascii.ascii_of_nat 10) EmptyString) ] in
  <[filename := contents fs filename ++ line]> fs.

(** ** An instance of the external operations

    Exact rational stand-ins, to run the embedding on concrete inputs:
    Gauss-Jordan elimination for [inverse] and for the linear solve, an
    exhaustive scan for the nearest neighbour, the eigen-decomposition of a
    diagonal matrix (eigenvalues in increasing order, eigenvectors as
    columns, as Eigen documents it), the integer square root, and
    first-order trigonometry, which is exact at angle 0.  The sweeps
    evaluated below have zero angles throughout the paths they take, so the
    stand-ins are exact on them. *)

Module Reference.

Definition row_scale (k : Q) (r : Vec) : Vec := map (fun a => Qred (k * a)) r.

(** [r - k * p] *)
Definition row_sub (r p : Vec) (k : Q) : Vec := zip_with (fun a b => Qred (a - k * b)) r p.

Fixpoint split_pivot (c : nat) (rows : list Vec) : option (Vec * list Vec) :=
  match rows with
  | [] => None
  | r :: rs =>
    if Qeq_bool (nth c r 0) 0
    then match split_pivot c rs with
         | Some (p, rest) => Some (p, r :: rest)
         | None => None
         end
    else Some (r, rs)
  end.

Definition eliminate (c : nat) (p r : Vec) : Vec := row_sub r p (nth c r 0).

Fixpoint gaussJordan (cols : list nat) (done todo : list Vec) : option (list Vec) :=
  match cols with
  | [] => Some done
  | c :: cs =>
    match split_pivot c todo with
    | None => None
    | Some (p, rest) =>
      let p' := row_scale (/ nth c p 0) p in
      gaussJordan cs (map (eliminate c p') done ++ [p']) (map (eliminate c p') rest)
    end
  end.

(** The inverse of a regular matrix; a singular one is returned as it is. *)
Definition gj_inverse (m : Mat) : Mat :=
  let n := length m in
  match gaussJordan (seq 0 n) [] (zip_with app m (identity n)) with
  | Some rows => map (drop n) rows
  | None => m
  end.

Definition gj_solve (m : Mat) (b : Vec) : Vec := vred (mvmul (gj_inverse m) b).

Fixpoint insert_sorted (e : Q * nat) (l : list (Q * nat)) : list (Q * nat) :=
  match l with
  | [] => [e]
  | h :: t => if Qle_bool (fst e) (fst h) then e :: l else h :: insert_sorted e t
  end.

(** Eigenvalues and eigenvectors of a diagonal matrix. *)
Definition diag_eigen (m : Mat) : Vec * Mat :=
  let n := length m in
  let sorted := fold_right insert_sorted [] (map (fun i => (mget m i i, i)) (seq 0 n)) in
  (map fst sorted,
   map (fun r => map (fun e => if Nat.eqb r (snd e) then 1 else 0) sorted) (seq 0 n)).

Definition sq_dist (a b : PointXYZI) : Q :=
  Qred ((p_x a - p_x b) * (p_x a - p_x b)
        + (p_y a - p_y b) * (p_y a - p_y b)
        + (p_z a - p_z b) * (p_z a - p_z b)).

(** The first point of least squared distance, from position [i] on. *)
Fixpoint nearest_from (i : Z) (c : Cloud) (p : PointXYZI) (best : Z * Q) : Z * Q :=
  match c with
  | [] => best
  | q :: c' =>
    let d := sq_dist q p in
    nearest_from (i + 1)%Z c' p (if Qltb d (snd best) then (i, d) else best)
  end.

Definition nearest (kd : KdTreeFLANN) (p : PointXYZI) : Z * Q :=
  match kd with
  | Some (q :: c) => nearest_from 1%Z c p (0%Z, sq_dist q p)
  | _ => (0%Z, 0)
  end.

Definition isqrt (a : Q) : Q :=
  Qred (inject_Z (Z.sqrt (Qnum a * Zpos (Qden a))) / inject_Z (Zpos (Qden a))).

Definition sin1 (a : Q) : Q := a.
Definition cos1 (a : Q) : Q := 1.
Definition asin1 (a : Q) : Q := a.
Definition atan2_1 (y x : Q) : Q := if Qeq_bool x 0 then 0 else Qred (y / x).

(** [pcl::getTransformation(x, y, z, roll, pitch, yaw)] *)
Definition transformation (x y z roll pitch yaw : Q) : Mat :=
  let A := cos1 yaw in
  let B := sin1 yaw in
  let C := cos1 pitch in
  let D := sin1 pitch in
  let E := cos1 roll in
  let F := sin1 roll in
  let DE := D * E in
  let DF := D * F in
  mred [ [A * C; A * DF - B * E; B * F + A * DE; x];
         [B * C; A * E + B * DF; B * DE - A * F; y];
         [- D; C * F; C * E; z];
         [0; 0; 0; 1] ].

(** [pcl::getEulerAngles(t, roll, pitch, yaw)] *)
Definition eulerAngles (t : Mat) : Q * Q * Q :=
  (atan2_1 (mget t 2 1) (mget t 2 2), asin1 (- mget t 2 0), atan2_1 (mget t 1 0) (mget t 0 0)).

#[export] Instance externals : Externals := {|
  ext_sin := sin1;
  ext_cos := cos1;
  ext_asin := asin1;
  ext_atan2 := atan2_1;
  ext_sqrt := isqrt;
  ext_pi := 355 # 113;
  nearestKSearch := nearest;
  colPivHouseholderQr_solve := gj_solve;
  SelfAdjointEigenSolver := diag_eigen;
  inverse := gj_inverse;
  getTransformation := transformation;
  getEulerAngles := eulerAngles
|}.

End Reference.

(** ** Concrete sweeps *)

Module Examples.
Import Reference.

(** The host installs the six inputs of one sweep, all stamped [t]. *)
Definition installSweep (st : LaserOdometry) (t : Q)
    (sharp lessSharp flat lessFlat fullRes : Cloud) (i : ImuTrans) : LaserOdometry := {|
  params := params st;
  systemInited := systemInited st;
  frameCount := frameCount st;
  timeCornerPointsSharp := t;
  timeCornerPointsLessSharp := t;
  timeSurfPointsFlat := t;
  timeSurfPointsLessFlat := t;
  timeLaserCloudFullRes := t;
  timeImuTrans := t;
  newCornerPointsSharp := true;
  newCornerPointsLessSharp := true;
  newSurfPointsFlat := true;
  newSurfPointsLessFlat := true;
  newLaserCloudFullRes := true;
  newImuTrans := true;
  cornerPointsSharp := sharp;
  cornerPointsLessSharp := lessSharp;
  surfPointsFlat := flat;
  surfPointsLessFlat := lessFlat;
  laserCloudFullRes := fullRes;
  lastCornerCloud := lastCornerCloud st;
  lastSurfaceCloud := lastSurfaceCloud st;
  laserCloudOri := laserCloudOri st;
  coeffSel := coeffSel st;
  lastCornerKDTree := lastCornerKDTree st;
  lastSurfaceKDTree := lastSurfaceKDTree st;
  pointSearchCornerInd1 := pointSearchCornerInd1 st;
  pointSearchCornerInd2 := pointSearchCornerInd2 st;
  pointSearchSurfInd1 := pointSearchSurfInd1 st;
  pointSearchSurfInd2 := pointSearchSurfInd2 st;
  pointSearchSurfInd3 := pointSearchSurfInd3 st;
  transform := transform st;
  transformSum := transformSum st;
  imu := i
|}.

(** The object [process] leaves, or [st] itself where the run stops. *)
Definition after (st : LaserOdometry) : LaserOdometry :=
  match process st with
  | Done (st', _) => st'
  | _ => st
  end.

Definition params0 : LaserOdometryParams := mkParams (1 # 10) 3 25 (1 # 10) (1 # 10).

(** A sensor moving along x at 1 m/s, no rotation. *)
Definition imu_moving : ImuTrans :=
  mkImuTrans 0 0 0 0 0 0 Vector3_zero (mkVector3 1 0 0).

(** A sensor pitched by 1/10 and rolled by 2/10 radian at sweep start. *)
Definition imu_tilted : ImuTrans :=
  mkImuTrans (2 # 10) (1 # 10) 0 0 0 0 Vector3_zero Vector3_zero.

Definition cloudA : Cloud := [mkPoint 1 0 0 0].
Definition cloudS : Cloud := [mkPoint 0 0 1 0; mkPoint 0 1 1 0].
Definition cloudB : Cloud := [mkPoint 2 0 0 0; mkPoint 3 0 0 1].
Definition cloudT : Cloud := [mkPoint 0 0 2 0; mkPoint 0 1 2 0; mkPoint 1 1 2 1].

(** Three sweeps of a few points each: the solver is never entered. *)
Definition tick1 : LaserOdometry :=
  installSweep (LaserOdometry_new params0) 0 cloudA cloudA cloudS cloudS cloudS imu_moving.
Definition tick2 : LaserOdometry :=
  installSweep (after tick1) (1 # 10) cloudB cloudB cloudT cloudT cloudT imu_moving.
Definition tick3 : LaserOdometry :=
  installSweep (after tick2) (2 # 10) cloudA cloudA cloudS cloudS cloudS imu_moving.

(** The second sweep again, with a corner point on ring 1 recorded half-way
    through the sweep (channel 1.05: s = 0.5). *)
Definition cloudC : Cloud := [mkPoint 2 0 0 0; mkPoint 3 0 0 (105 # 100)].
Definition tick2_skewed : LaserOdometry :=
  installSweep (after tick1) (1 # 10) cloudC cloudC cloudT cloudT cloudC imu_moving.

(** A cold start with a tilted sensor. *)
Definition tick_tilted : LaserOdometry :=
  installSweep (LaserOdometry_new params0) 0 cloudA cloudA cloudS cloudS cloudS imu_tilted.

(** A sweep whose streams are 10 ms apart. *)
Definition tick_unsynced : LaserOdometry := {|
  params := params0;
  systemInited := false;
  frameCount := 0;
  timeCornerPointsSharp := 1 # 100;
  timeCornerPointsLessSharp := 0;
  timeSurfPointsFlat := 0;
  timeSurfPointsLessFlat := 0;
  timeLaserCloudFullRes := 0;
  timeImuTrans := 0;
  newCornerPointsSharp := true;
  newCornerPointsLessSharp := true;
  newSurfPointsFlat := true;
  newSurfPointsLessFlat := true;
  newLaserCloudFullRes := true;
  newImuTrans := true;
  cornerPointsSharp := cloudA;
  cornerPointsLessSharp := cloudA;
  surfPointsFlat := cloudS;
  surfPointsLessFlat := cloudS;
  laserCloudFullRes := cloudS;
  lastCornerCloud := [];
  lastSurfaceCloud := [];
  laserCloudOri := [];
  coeffSel := [];
  lastCornerKDTree := None;
  lastSurfaceKDTree := None;
  pointSearchCornerInd1 := [];
  pointSearchCornerInd2 := [];
  pointSearchSurfInd1 := [];
  pointSearchSurfInd2 := [];
  pointSearchSurfInd3 := [];
  transform := Twist_default;
  transformSum := Twist_default;
  imu := ImuTrans_default
|}.

(** A sweep whose streams are stamped up to 4 ms before and after the
    less-flat stream. *)
Definition tick_spread : LaserOdometry := {|
  params := params0;
  systemInited := false;
  frameCount := 0;
  timeCornerPointsSharp := 4 # 1000;
  timeCornerPointsLessSharp := 0;
  timeSurfPointsFlat := 0;
  timeSurfPointsLessFlat := 0;
  timeLaserCloudFullRes := 0;
  timeImuTrans := - (4 # 1000);
  newCornerPointsSharp := true;
  newCornerPointsLessSharp := true;
  newSurfPointsFlat := true;
  newSurfPointsLessFlat := true;
  newLaserCloudFullRes := true;
  newImuTrans := true;
  cornerPointsSharp := cloudA;
  cornerPointsLessSharp := cloudA;
  surfPointsFlat := cloudS;
  surfPointsLessFlat := cloudS;
  laserCloudFullRes := cloudS;
  lastCornerCloud := [];
  lastSurfaceCloud := [];
  laserCloudOri := [];
  coeffSel := [];
  lastCornerKDTree := None;
  lastSurfaceKDTree := None;
  pointSearchCornerInd1 := [];
  pointSearchCornerInd2 := [];
  pointSearchSurfInd1 := [];
  pointSearchSurfInd2 := [];
  pointSearchSurfInd3 := [];
  transform := Twist_default;
  transformSum := Twist_default;
  imu := ImuTrans_default
|}.

(** A previous sweep large enough for the solver: eleven corner points on
    ring 0 along the x axis, the last one nearest to the origin, and 101
    surface points on ring 0 in the plane z = 1, the last one nearest to
    the origin. *)
Definition corner11 : Cloud :=
  map (fun k => mkPoint (inject_Z (11 - Z.of_nat k)) 0 0 0) (seq 0 11).
Definition surface101 : Cloud :=
  map (fun k => mkPoint (inject_Z (100 - Z.of_nat k) / 100) 0 1 0) (seq 0 101).

(** A current sweep with one sharp point and one flat point, both 100 m
    away from every point of the previous sweep. *)
Definition sharp_far : Cloud := [mkPoint 100 0 0 0].
Definition flat_far : Cloud := [mkPoint 100 0 1 0].

(** A current sweep with more sharp points than the previous sweep has
    corner points, and more flat points than it has surface points. *)
Definition sharp12 : Cloud :=
  map (fun k => mkPoint (inject_Z (Z.of_nat k)) 0 0 0) (seq 0 12).
Definition flat102 : Cloud :=
  map (fun k => mkPoint (inject_Z (Z.of_nat k) / 100) 0 1 0) (seq 0 102).

Definition big1 : LaserOdometry :=
  installSweep (LaserOdometry_new params0) 0 [] corner11 [] surface101 [] ImuTrans_default.
Definition big2_far : LaserOdometry :=
  installSweep (after big1) (1 # 10) sharp_far corner11 flat_far surface101 [] ImuTrans_default.
Definition big2_more_sharp : LaserOdometry :=
  installSweep (after big1) (1 # 10) sharp12 corner11 [] surface101 [] ImuTrans_default.
Definition big2_more_flat : LaserOdometry :=
  installSweep (after big1) (1 # 10) [] corner11 flat102 surface101 [] ImuTrans_default.

(** A second sweep with other less-sharp and less-flat clouds than the
    first one, 12 and 102 points, and no query point. *)
Definition big2_renewed : LaserOdometry :=
  installSweep (after big1) (1 # 10) [] sharp12 [] flat102 [] ImuTrans_default.

(** An initialization sweep whose less-flat cloud is three points of the
    plane z = 2, and the sweep after it, with two flat points. *)
Definition tick1_plane : LaserOdometry :=
  installSweep (LaserOdometry_new params0) 0 cloudA cloudA cloudS cloudT cloudS ImuTrans_default.
Definition tick2_plane : LaserOdometry :=
  installSweep (after tick1_plane) (1 # 10) cloudA cloudA cloudS cloudS cloudS ImuTrans_default.

(** Cached correspondences for that sweep: for one sharp point the two
    points of a previous corner cloud on the rings 0 and 1, and for each
    of the two flat points the three points of the previous surface
    cloud. *)
Definition edge2 : Cloud := [mkPoint 1 0 0 0; mkPoint 1 1 0 1].
Definition cached_both : SolverState :=
  mkSolver Twist_default edge2 [0%Z] [1%Z] [0%Z; 0%Z] [1%Z; 1%Z] [2%Z; 2%Z] [] []
           false [] false.

(** What a tick returned and which nearest neighbours it recorded. *)
Definition searched (x : Run (LaserOdometry * bool)) : option (bool * list Z * list Z) :=
  match x with
  | Done (st', r) => Some (r, pointSearchCornerInd1 st', pointSearchSurfInd1 st')
  | _ => None
  end.

End Examples.

(** ** The properties, as the specification words them *)

(** Section 4.6: a tick is valid iff all six streams are fresh and each of
    the other five is stamped less than 5 ms from the less-flat stream. *)
Definition tickValid (st : LaserOdometry) : Prop :=
  newCornerPointsSharp st = true /\ newCornerPointsLessSharp st = true /\
  newSurfPointsFlat st = true /\ newSurfPointsLessFlat st = true /\
  newLaserCloudFullRes st = true /\ newImuTrans st = true /\
  Qabs (timeCornerPointsSharp st - timeSurfPointsLessFlat st) < 5 # 1000 /\
  Qabs (timeCornerPointsLessSharp st - timeSurfPointsLessFlat st) < 5 # 1000 /\
  Qabs (timeSurfPointsFlat st - timeSurfPointsLessFlat st) < 5 # 1000 /\
  Qabs (timeLaserCloudFullRes st - timeSurfPointsLessFlat st) < 5 # 1000 /\
  Qabs (timeImuTrans st - timeSurfPointsLessFlat st) < 5 # 1000.

Definition flagsCleared (st : LaserOdometry) : Prop :=
  newCornerPointsSharp st = false /\ newCornerPointsLessSharp st = false /\
  newSurfPointsFlat st = false /\ newSurfPointsLessFlat st = false /\
  newLaserCloudFullRes st = false /\ newImuTrans st = false.

(** A line of numbers, separated by single spaces and ended by a newline. *)
Fixpoint spaceSeparated (entries : list Q) : list Item :=
  match entries with
  | [] => [Text (String (Ascii.ascii_of_nat 10) EmptyString)]
  | [e] => [Num e; Text (String (Ascii.ascii_of_nat 10) EmptyString)]
  | e :: rest => Num e :: Text " " :: spaceSeparated rest
  end.

(** The twelve entries of the 3x4 matrix [rot | trans], row by row. *)
Definition rowMajor3x4 (rot : Mat) (trans : Vec) : list Q :=
  flat_map (fun i => [mget rot i 0; mget rot i 1; mget rot i 2; vget trans i]) [0; 1; 2]%nat.

(** Section 6 in its own words: the nine rotation entries, then the three
    translation entries. *)
Definition rotationThenTranslation (rot : Mat) (trans : Vec) : list Q :=
  flat_map (fun i => [mget rot i 0; mget rot i 1; mget rot i 2]) [0; 1; 2]%nat
  ++ [vget trans 0; vget trans 1; vget trans 2].

(** Equality of poses up to the value of their rational components. *)
Definition twistEq (a b : Twist) : Prop :=
  rot_x a == rot_x b /\ rot_y a == rot_y b /\ rot_z a == rot_z b /\
  v_x (pos a) == v_x (pos b) /\ v_y (pos a) == v_y (pos b) /\ v_z (pos a) == v_z (pos b).

(** Section 4.4, step 1, in its own words: translation
    [-imuVeloFromStart * scanPeriod] and zero rotation. *)
Definition imuPriorOnly (st : LaserOdometry) : Twist :=
  mkTwist 0 0 0
          (mkVector3 (- (v_x (imuVeloFromStart (imu st)) * scanPeriod (params st)))
                     (- (v_y (imuVeloFromStart (imu st)) * scanPeriod (params st)))
                     (- (v_z (imuVeloFromStart (imu st)) * scanPeriod (params st)))).

(** Eigen's [SelfAdjointEigenSolver] returns the eigenvalues in increasing
    order. *)
Definition increasing6 (matE : Vec) : Prop :=
  vget matE 0 <= vget matE 1 /\ vget matE 1 <= vget matE 2 /\ vget matE 2 <= vget matE 3 /\
  vget matE 3 <= vget matE 4 /\ vget matE 4 <= vget matE 5.

(** Two solver states with the same recorded neighbours and the same
    selected coefficients, and two runs that end in such states or stop in
    the same way. *)
Definition sameSearch (s s' : SolverState) : Prop :=
  so_lastCornerCloud s = so_lastCornerCloud s' /\
  so_cornerInd1 s = so_cornerInd1 s' /\ so_cornerInd2 s = so_cornerInd2 s' /\
  so_surfInd1 s = so_surfInd1 s' /\ so_surfInd2 s = so_surfInd2 s' /\
  so_surfInd3 s = so_surfInd3 s' /\
  so_coeffSel s = so_coeffSel s'.

Definition sameRun (x y : Run SolverState) : Prop :=
  match x, y with
  | Done a, Done b => sameSearch a b
  | OutOfRange j n, OutOfRange j' n' => j = j' /\ n = n'
  | NotFinite, NotFinite => True
  | _, _ => False
  end.

(** ** Further properties: what they speak about *)

(** The scan ring of a point: the integer part of its channel. *)
Definition scanRing (p : PointXYZI) : Z := to_int (intensity p).

(** What one pass over a query point may change in the solver state: the
    caches keep their sizes and at most one correspondence is selected. *)
Definition sameFrame (s s' : SolverState) : Prop :=
  so_transform s' = so_transform s /\
  so_lastCornerCloud s' = so_lastCornerCloud s /\
  so_isDegenerate s' = so_isDegenerate s /\
  so_matP s' = so_matP s /\
  so_isConverged s' = so_isConverged s /\
  length (so_cornerInd1 s') = length (so_cornerInd1 s) /\
  length (so_cornerInd2 s') = length (so_cornerInd2 s) /\
  length (so_surfInd1 s') = length (so_surfInd1 s) /\
  length (so_surfInd2 s') = length (so_surfInd2 s) /\
  length (so_surfInd3 s') = length (so_surfInd3 s) /\
  (length (so_laserCloudOri s) <= length (so_laserCloudOri s'))%nat /\
  (length (so_laserCloudOri s') <= S (length (so_laserCloudOri s)))%nat.

(** The same after [k] passes. *)
Definition frameN (k : nat) (s s' : SolverState) : Prop :=
  so_transform s' = so_transform s /\
  so_lastCornerCloud s' = so_lastCornerCloud s /\
  so_isDegenerate s' = so_isDegenerate s /\
  so_matP s' = so_matP s /\
  so_isConverged s' = so_isConverged s /\
  length (so_cornerInd1 s') = length (so_cornerInd1 s) /\
  length (so_cornerInd2 s') = length (so_cornerInd2 s) /\
  length (so_surfInd1 s') = length (so_surfInd1 s) /\
  length (so_surfInd2 s') = length (so_surfInd2 s) /\
  length (so_surfInd3 s') = length (so_surfInd3 s) /\
  (length (so_laserCloudOri s') <= length (so_laserCloudOri s) + k)%nat.

(** The six time stamps of the input streams. *)
Definition stamps (st : LaserOdometry) : list Q :=
  [timeCornerPointsSharp st; timeCornerPointsLessSharp st; timeSurfPointsFlat st;
   timeSurfPointsLessFlat st; timeLaserCloudFullRes st; timeImuTrans st].

(** What the corner scans keep in [(minPointSqDis2, minPointInd2)]: nothing
    yet, or a point within 5 m of the search position that lies after the
    closest neighbour on a higher ring or before it on a lower ring, at most
    two rings away. *)
Definition secondOK (cloud : Cloud) (p : PointXYZI) (c scan : Z) (acc : Q * Z) : Prop :=
  acc = (25, (-1)%Z) \/
  exists pm, at_ cloud (snd acc) = Done pm /\
             fst acc = calcSquaredDiff pm p /\ fst acc < 25 /\
             ((c < snd acc)%Z /\ (scan < scanRing pm)%Z /\
              (to_size_t (scanRing pm) <= scan + 2)%Z \/
              (snd acc < c)%Z /\ (scan - 2 <= scanRing pm < scan)%Z).

(** A cloud stored ring by ring. *)
Definition ringSorted (cloud : Cloud) : Prop :=
  forall i j pi pj, (i <= j)%Z -> at_ cloud i = Done pi -> at_ cloud j = Done pj ->
                    (scanRing pi <= scanRing pj)%Z.

(** What the surface scans keep: the second neighbour, stored after the
    closest one on a ring not above its ring or before it on a ring not
    below; the third, stored after it on a higher ring or before it on a
    lower ring, at most two rings away; each within 5 m of the search
    position. *)
Definition sameSideOK (cloud : Cloud) (p : PointXYZI) (c scan : Z) (d : Q) (i : Z) : Prop :=
  (d = 25 /\ i = (-1)%Z) \/
  exists pm, at_ cloud i = Done pm /\ d = calcSquaredDiff pm p /\ d < 25 /\
             ((c < i)%Z /\ (scanRing pm <= scan)%Z \/ (i < c)%Z /\ (scan <= scanRing pm)%Z).

Definition otherRingOK (cloud : Cloud) (p : PointXYZI) (c scan : Z) (d : Q) (i : Z) : Prop :=
  (d = 25 /\ i = (-1)%Z) \/
  exists pm, at_ cloud i = Done pm /\ d = calcSquaredDiff pm p /\ d < 25 /\
             ((c < i)%Z /\ (scan < scanRing pm <= scan + 2)%Z \/
              (i < c)%Z /\ (scan - 2 <= scanRing pm < scan)%Z).

Definition surfOK (cloud : Cloud) (p : PointXYZI) (c scan : Z) (acc : SurfAcc) : Prop :=
  sameSideOK cloud p c scan (fst (fst (fst acc))) (snd (fst (fst acc))) /\
  otherRingOK cloud p c scan (snd (fst acc)) (snd acc).

(** A selection of correspondences: one coefficient per selected point,
    each with a residual that is not zero. *)
Definition selectionOK (s : SolverState) : Prop :=
  length (so_laserCloudOri s) = length (so_coeffSel s) /\
  Forall (fun c => ~ intensity c == 0) (so_coeffSel s).

(** The five index caches of a solver state. *)
Definition caches (s : SolverState) : list (list Z) :=
  [so_cornerInd1 s; so_cornerInd2 s; so_surfInd1 s; so_surfInd2 s; so_surfInd3 s].

(** Two vectors with equal coordinates, as rationals. *)
Definition vecEq (a b : Vector3) : Prop :=
  v_x a == v_x b /\ v_y a == v_y b /\ v_z a == v_z b.

(** * Lemmas *)

Lemma Qltb_lt (a b : Q) : Qltb a b = true <-> a < b.
Proof.
  unfold Qltb. destruct (Qle_bool b a) eqn:E; simpl.
  - apply Qle_bool_iff in E. split; [discriminate | lra].
  - split; [intros _ | reflexivity].
    destruct (Qlt_le_dec a b) as [Hlt | Hle]; [exact Hlt |].
    apply Qle_bool_iff in Hle. congruence.
Qed.

Lemma Qltb_ge (a b : Q) : Qltb a b = false <-> b <= a.
Proof.
  rewrite <- Qle_bool_iff. unfold Qltb.
  destruct (Qle_bool b a); simpl; split; congruence.
Qed.

Lemma at_in_range (c : Cloud) (j : Z) :
  (0 <= j < Z.of_nat (length c))%Z -> exists p, at_ c j = Done p.
Proof.
  intros [H0 H1]. unfold at_.
  destruct (j <? 0)%Z eqn:E; [apply Z.ltb_lt in E; lia |].
  destruct (c !! Z.to_nat j) as [p |] eqn:L; [eauto |].
  apply lookup_ge_None in L. lia.
Qed.

Lemma at_out_of_range (c : Cloud) (j : Z) :
  (Z.of_nat (length c) <= j)%Z -> at_ c j = OutOfRange j (length c).
Proof.
  intros Hj. unfold at_.
  destruct (j <? 0)%Z; [reflexivity |].
  destruct (c !! Z.to_nat j) as [p |] eqn:L; [| reflexivity].
  apply lookup_lt_Some in L. lia.
Qed.

Lemma removeNaN_id (c : Cloud) : removeNaNFromPointCloud c = c.
Proof.
  unfold removeNaNFromPointCloud. induction c as [| p c IH]; [reflexivity |].
  rewrite filter_cons_True by reflexivity. now rewrite IH.
Qed.

(** ** Input gating *)

Lemma hasNewData_valid (st : LaserOdometry) : hasNewData st = true <-> tickValid st.
Proof.
  unfold hasNewData, tickValid, fabs.
  rewrite !andb_true_iff, !Qltb_lt. tauto.
Qed.

Lemma reset_cleared (st : LaserOdometry) : flagsCleared (reset st).
Proof. repeat split. Qed.

Section ProcessFacts.
Context `{Externals}.

Lemma process_waiting (st : LaserOdometry) :
  hasNewData st = false -> process st = Done (st, false).
Proof. intros Hn. unfold process. now rewrite Hn. Qed.

Lemma process_first (st : LaserOdometry) :
  hasNewData st = true -> systemInited st = false ->
  process st = Done (process_init (reset st), false).
Proof. intros Hn Hi. unfold process. rewrite Hn. simpl. now rewrite Hi. Qed.

(** A later tick either stops in the solver or goes through
    [process_finish]. *)
Lemma process_later (st : LaserOdometry) :
  hasNewData st = true -> systemInited st = true ->
  (exists j n, process st = OutOfRange j n) \/ process st = NotFinite \/
  (exists sharp s, process st = Done (process_finish (reset st) sharp s, true)).
Proof.
  intros Hn Hi. unfold process. rewrite Hn. simpl. rewrite Hi. simpl.
  destruct (_ && _).
  - destruct (solve (reset st)) as [[sharp s] | j n |]; simpl; eauto.
  - simpl. eauto 6.
Qed.

Lemma process_skipping (st : LaserOdometry) :
  hasNewData st = true -> systemInited st = true ->
  (length (lastCornerCloud st) <= 10 \/ length (lastSurfaceCloud st) <= 100)%nat ->
  process st = Done (process_finish (reset st) (cornerPointsSharp st) (solverEntry (reset st)), true).
Proof.
  intros Hn Hi Hsz. unfold process. rewrite Hn. simpl. rewrite Hi. simpl.
  replace (_ && _) with false; [reflexivity |].
  symmetry. apply andb_false_iff.
  destruct Hsz; [left | right]; apply Nat.ltb_ge; assumption.
Qed.

Lemma process_solving (st : LaserOdometry) (sharp : Cloud) (s : SolverState) :
  hasNewData st = true -> systemInited st = true ->
  (10 < length (lastCornerCloud st))%nat -> (100 < length (lastSurfaceCloud st))%nat ->
  solve (reset st) = Done (sharp, s) ->
  process st = Done (process_finish (reset st) sharp s, true).
Proof.
  intros Hn Hi H10 H100 Hs. unfold process. rewrite Hn. simpl. rewrite Hi. simpl.
  apply Nat.ltb_lt in H10, H100. rewrite H10, H100. simpl. now rewrite Hs.
Qed.


(** Whatever a run returns, the fresh-data flags are those of [reset]. *)
Lemma process_flags (st st' : LaserOdometry) (r : bool) :
  hasNewData st = true -> process st = Done (st', r) -> flagsCleared st'.
Proof.
  intros Hn Hp. destruct (systemInited st) eqn:Hi.
  - destruct (process_later st Hn Hi) as [(j & n & E) | [E | (sharp & s & E)]];
      rewrite E in Hp; [discriminate | discriminate |].
    injection Hp as <- _. repeat split.
  - rewrite (process_first st Hn Hi) in Hp. injection Hp as <- _. repeat split.
Qed.

(** The frame count starts at 0 and only grows. *)
Lemma process_frameCount (st st' : LaserOdometry) (r : bool) :
  (0 <= frameCount st)%Z -> process st = Done (st', r) -> (0 <= frameCount st')%Z.
Proof.
  intros Hf Hp. destruct (hasNewData st) eqn:Hn.
  - destruct (systemInited st) eqn:Hi.
    + destruct (process_later st Hn Hi) as [(j & n & E) | [E | (sharp & s & E)]];
        rewrite E in Hp; [discriminate | discriminate |].
      injection Hp as <- _. simpl. lia.
    + rewrite (process_first st Hn Hi) in Hp. injection Hp as <- _. exact Hf.
  - rewrite (process_waiting st Hn) in Hp. injection Hp as <- _. exact Hf.
Qed.

Lemma generateRegisteredCloud_frameCount (st : LaserOdometry) (registered_cloud : Cloud) :
  frameCount (fst (fst (generateRegisteredCloud st registered_cloud))) = frameCount st.
Proof. unfold generateRegisteredCloud. destruct (_ || _); reflexivity. Qed.

End ProcessFacts.

(** C5: [process] does no work, returning false with the object
    untouched, exactly when the tick is not valid (six fresh flags and the
    five other stamps within 5 ms of the less-flat one); and a tick that
    passes the gate leaves all six fresh-data flags false. *)
Theorem process_gate `{Externals} (st : LaserOdometry) :
  (process st = Done (st, false) <-> ~ tickValid st) /\
  (forall st' r, tickValid st -> process st = Done (st', r) -> flagsCleared st').
Proof.
  split.
  - rewrite <- hasNewData_valid. split.
    + intros Hp Hn. pose proof (process_flags st st false Hn Hp) as (Hf & _).
      apply hasNewData_valid in Hn. destruct Hn as (Ht & _). congruence.
    + intros Hn. apply process_waiting. now destruct (hasNewData st).
  - intros st' r Hv Hp. apply hasNewData_valid in Hv. eapply process_flags; eassumption.
Qed.

Lemma process_gate_witness :
  tickValid Examples.tick1 /\ ~ tickValid Examples.tick_unsynced /\
  @process Reference.externals Examples.tick_unsynced = Done (Examples.tick_unsynced, false) /\
  flagsCleared (Examples.after Examples.tick1).
Proof.
  assert (Hv : tickValid Examples.tick1) by (vm_compute; tauto).
  assert (Hu : ~ tickValid Examples.tick_unsynced).
  { intros (_ & _ & _ & _ & _ & _ & Hu & _). vm_compute in Hu. discriminate. }
  split; [exact Hv |]. split; [exact Hu |]. split.
  - exact (proj2 (proj1 (@process_gate Reference.externals Examples.tick_unsynced)) Hu).
  - apply (proj2 (@process_gate Reference.externals Examples.tick1) _ false Hv).
    vm_compute. reflexivity.
Defined.

(** ** The initialization tick *)

(** C6: on the first call of [process] with valid data (the object not yet
    initialized, the accumulated pose still as constructed), [process]
    returns false, sets the system-initialized flag, puts the tick's
    less-sharp and less-flat clouds into the previous-sweep slots, does not
    solve (incremental transform, frame count and selected correspondences
    are untouched), and leaves the accumulated pose at rotation
    (imuPitchStart, 0, imuRollStart) with zero translation. *)
Theorem cold_start `{Externals} (st : LaserOdometry) :
  tickValid st -> systemInited st = false -> transformSum st = Twist_default ->
  exists st',
    process st = Done (st', false) /\
    systemInited st' = true /\
    lastCornerCloud st' = cornerPointsLessSharp st /\
    lastSurfaceCloud st' = surfPointsLessFlat st /\
    transform st' = transform st /\
    frameCount st' = frameCount st /\
    laserCloudOri st' = laserCloudOri st /\
    coeffSel st' = coeffSel st /\
    rot_x (transformSum st') == imuPitchStart (imu st) /\
    rot_y (transformSum st') == 0 /\
    rot_z (transformSum st') == imuRollStart (imu st) /\
    pos (transformSum st') = Vector3_zero.
Proof.
  intros Hv Hi Hsum. apply hasNewData_valid in Hv.
  exists (process_init (reset st)). split; [now apply process_first |].
  simpl. rewrite Hsum. simpl.
  repeat split; try reflexivity; ring.
Qed.

Lemma cold_start_witness :
  exists st',
    @process Reference.externals Examples.tick_tilted = Done (st', false) /\
    systemInited st' = true /\
    lastCornerCloud st' = Examples.cloudA /\
    lastSurfaceCloud st' = Examples.cloudS /\
    rot_x (transformSum st') == 1 # 10 /\
    rot_y (transformSum st') == 0 /\
    rot_z (transformSum st') == 2 # 10 /\
    pos (transformSum st') = Vector3_zero.
Proof.
  assert (Hv : tickValid Examples.tick_tilted) by (vm_compute; tauto).
  destruct (@cold_start Reference.externals Examples.tick_tilted Hv eq_refl eq_refl)
    as (st' & Hp & Hi & Hc & Hs & _ & _ & _ & _ & Hx & Hy & Hz & Hpos).
  exists st'. repeat split; assumption.
Defined.

(** ** Ticks with too few previous points *)



(** ** The incremental transform at the entry of the solver *)

Lemma solve_entry `{Externals} (st : LaserOdometry) :
  exists s0,
    so_transform s0 = transformPrior st /\
    solve st =
      (s' ← solverLoop st (removeNaNFromPointCloud (cornerPointsSharp st))
              (maxIterations (params st)) 0 s0;
       Done (removeNaNFromPointCloud (cornerPointsSharp st), s')).
Proof. eexists. split; [| reflexivity]. reflexivity. Qed.

(** C3, as the code has it: on a valid tick of an initialized object the
    solver loop is entered with the incremental transform carried over from
    the previous tick, its rotation unchanged and its translation lowered by
    imuVeloFromStart * scanPeriod; it is the IMU prior alone (that
    translation, zero rotation) when the carried-over transform is zero, as
    on the first tick after initialization. *)
Theorem transform_carried_over `{Externals} (st : LaserOdometry) :
  tickValid st -> systemInited st = true ->
  exists s0,
    solve (reset st) =
      (s' ← solverLoop (reset st) (removeNaNFromPointCloud (cornerPointsSharp st))
              (maxIterations (params st)) 0 s0;
       Done (removeNaNFromPointCloud (cornerPointsSharp st), s')) /\
    so_transform s0 = so_transform (solverEntry (reset st)) /\
    rot_x (so_transform s0) = rot_x (transform st) /\
    rot_y (so_transform s0) = rot_y (transform st) /\
    rot_z (so_transform s0) = rot_z (transform st) /\
    pos (so_transform s0) =
      vsub (pos (transform st)) (vscale (imuVeloFromStart (imu st)) (scanPeriod (params st))) /\
    (twistEq (transform st) Twist_default -> twistEq (so_transform s0) (imuPriorOnly st)).
Proof.
  intros _ _. destruct (solve_entry (reset st)) as (s0 & Ht & Hs).
  exists s0. split; [exact Hs |]. rewrite Ht.
  do 5 (split; [reflexivity |]).
  intros (Hx & Hy & Hz & Hpx & Hpy & Hpz). simpl in *.
  repeat split; simpl; lra.
Qed.

Lemma transform_carried_over_witness :
  exists s0,
    so_transform s0 = so_transform (solverEntry (reset Examples.tick2)) /\
    twistEq (so_transform s0) (imuPriorOnly Examples.tick2).
Proof.
  assert (Hv : tickValid Examples.tick2) by (vm_compute; tauto).
  assert (Hi : systemInited Examples.tick2 = true) by (vm_compute; reflexivity).
  destruct (@transform_carried_over Reference.externals Examples.tick2 Hv Hi)
    as (s0 & _ & He & _ & _ & _ & _ & Hz).
  exists s0. split; [exact He |]. apply Hz.
  vm_compute. repeat split; discriminate.
Defined.

(** C3 as stated fails on the second tick after initialization of a sensor
    moving at 1 m/s: the solver is entered with translation -0.2 m, the
    carried-over -0.1 m lowered by 0.1 m, not with the IMU prior -0.1 m. *)
Lemma transform_not_reset :
  tickValid Examples.tick3 /\ systemInited Examples.tick3 = true /\
  v_x (pos (so_transform (solverEntry (reset Examples.tick3)))) == - (2 # 10) /\
  v_x (pos (imuPriorOnly Examples.tick3)) == - (1 # 10) /\
  ~ twistEq (so_transform (solverEntry (reset Examples.tick3)))
            (imuPriorOnly Examples.tick3).
Proof.
  split; [vm_compute; tauto |]. split; [vm_compute; reflexivity |].
  split; [vm_compute; reflexivity |]. split; [vm_compute; reflexivity |].
  intros (_ & _ & _ & Hx & _). vm_compute in Hx. discriminate.
Qed.

(** ** Export of the full-resolution cloud *)

(** The decimation rule: with a frame count that is not negative, as it is
    after any number of ticks, [generateRegisteredCloud] returns true
    exactly when ioRatio < 2 or frameCount mod ioRatio = 1; then the
    full-resolution cloud of the object is the one de-skewed to the sweep
    end, otherwise the object is as before; the caller's
    [registered_cloud] is left as it was in both cases; and with
    ioRatio = 3 it returns true exactly at the frame counts 1, 4, 7, ... *)
Lemma generateRegisteredCloud_decimation `{Externals}
    (st : LaserOdometry) (registered_cloud : Cloud) :
  (0 <= frameCount st)%Z ->
  let out := generateRegisteredCloud st registered_cloud in
  (snd out = true <->
     (ioRatio (params st) < 2)%Z \/ (frameCount st mod ioRatio (params st) = 1)%Z) /\
  (snd out = true ->
     laserCloudFullRes (fst (fst out)) =
       transformToEnd (transform st) (imu st) (laserCloudFullRes st)) /\
  (snd out = false -> fst (fst out) = st) /\
  snd (fst out) = registered_cloud /\
  (ioRatio (params st) = 3%Z ->
     (snd out = true <-> exists k, (0 <= k)%Z /\ frameCount st = (3 * k + 1)%Z)).
Proof.
  intros Hf. cbv zeta. unfold generateRegisteredCloud.
  destruct (ioRatio (params st) <? 2)%Z eqn:Eio.
  - apply Z.ltb_lt in Eio. simpl.
    split; [tauto |]. split; [reflexivity |]. split; [discriminate |].
    split; [reflexivity |]. intros H3. lia.
  - apply Z.ltb_ge in Eio. simpl.
    rewrite Z.rem_mod_nonneg by lia.
    destruct (frameCount st mod ioRatio (params st) =? 1)%Z eqn:Em; simpl.
    + apply Z.eqb_eq in Em.
      split; [tauto |]. split; [reflexivity |]. split; [discriminate |].
      split; [reflexivity |].
      intros H3. split; [intros _ | reflexivity].
      exists (frameCount st / 3)%Z. rewrite H3 in Em.
      pose proof (Z.div_mod (frameCount st) 3 ltac:(lia)).
      pose proof (Z.div_pos (frameCount st) 3 Hf ltac:(lia)). lia.
    + apply Z.eqb_neq in Em.
      split; [split; [discriminate | lia] |]. split; [discriminate |].
      split; [reflexivity |]. split; [reflexivity |].
      intros H3. split; [discriminate |].
      intros (k & Hk & Hfk). exfalso. apply Em. rewrite H3, Hfk.
      rewrite Z.add_comm, Z.mul_comm, Z.mod_add by lia. reflexivity.
Qed.

(** C9 fails on every tick on which [generateRegisteredCloud] returns true:
    the copy into [registered_cloud] is commented out, so the cloud of the
    caller is never written.  At frame count 1 with ioRatio = 3, called
    with an empty cloud, it returns true and de-skews the full-resolution
    cloud of the object (the point (3, 0, 0) on ring 1, recorded half-way
    through the sweep, becomes (2.95, 0, 0) with channel 1), but the
    caller's cloud is still empty. *)
Theorem generateRegisteredCloud_leaves_argument :
  (forall (E : Externals) (st : LaserOdometry) (registered_cloud : Cloud),
     snd (fst (@generateRegisteredCloud E st registered_cloud)) = registered_cloud) /\
  frameCount (Examples.after Examples.tick2_skewed) = 1%Z /\
  ioRatio (params (Examples.after Examples.tick2_skewed)) = 3%Z /\
  laserCloudFullRes (Examples.after Examples.tick2_skewed) = Examples.cloudC /\
  exists st' q0 q1,
    @generateRegisteredCloud Reference.externals (Examples.after Examples.tick2_skewed) []
      = (st', [], true) /\
    laserCloudFullRes st' = [q0; q1] /\
    p_x q0 == 19 # 10 /\ p_y q0 == 0 /\ p_z q0 == 0 /\ intensity q0 == 0 /\
    p_x q1 == 295 # 100 /\ p_y q1 == 0 /\ p_z q1 == 0 /\ intensity q1 == 1 /\
    laserCloudFullRes st' <> [].
Proof.
  split.
  { intros E st rc. unfold generateRegisteredCloud. destruct (_ || _); reflexivity. }
  split; [vm_compute; reflexivity |]. split; [vm_compute; reflexivity |].
  split; [vm_compute; reflexivity |].
  do 3 eexists. split; [vm_compute; reflexivity |].
  split; [reflexivity |].
  repeat split; try (vm_compute; reflexivity). discriminate.
Qed.

(** ** savePoseToFile *)

Lemma savePoseToFile_line (rot : Mat) (trans : Vec) (filename : string)
    (fs : gmap string (list Item)) :
  contents (savePoseToFile rot trans filename fs) filename =
    contents fs filename ++ spaceSeparated (rowMajor3x4 rot trans).
Proof. unfold savePoseToFile, contents. now rewrite lookup_insert_eq. Qed.

(** C10, as the code has it: for every rotation matrix and translation
    vector, [savePoseToFile] appends to the named file one line, the twelve
    entries of the 3x4 matrix [rot | trans] in row-major order (each row of
    the rotation followed by the translation entry of that row), separated
    by spaces and ended by a newline; no other file changes. *)
Theorem savePoseToFile_row_major (rot : Mat) (trans : Vec) (filename : string)
    (fs : gmap string (list Item)) :
  contents (savePoseToFile rot trans filename fs) filename =
    contents fs filename ++ spaceSeparated (rowMajor3x4 rot trans) /\
  rowMajor3x4 rot trans =
    [mget rot 0 0; mget rot 0 1; mget rot 0 2; vget trans 0;
     mget rot 1 0; mget rot 1 1; mget rot 1 2; vget trans 1;
     mget rot 2 0; mget rot 2 1; mget rot 2 2; vget trans 2] /\
  (forall other, other <> filename ->
     contents (savePoseToFile rot trans filename fs) other = contents fs other).
Proof.
  split; [apply savePoseToFile_line |]. split; [reflexivity |].
  intros other Hne. unfold savePoseToFile, contents.
  now rewrite lookup_insert_ne by congruence.
Qed.

(** C10 as stated fails for the identity rotation and the translation
    (5, 6, 7): the line written is 1 0 0 5 0 1 0 6 0 0 1 7, not the nine
    rotation entries followed by 5 6 7. *)
Lemma savePoseToFile_not_rotation_first :
  contents (savePoseToFile (identity 3) [5; 6; 7] "poses.txt" ∅) "poses.txt" =
    spaceSeparated [1; 0; 0; 5; 0; 1; 0; 6; 0; 0; 1; 7] /\
  contents (savePoseToFile (identity 3) [5; 6; 7] "poses.txt" ∅) "poses.txt" <>
    contents ∅ "poses.txt" ++ spaceSeparated (rotationThenTranslation (identity 3) [5; 6; 7]).
Proof.
  rewrite savePoseToFile_line. unfold contents. rewrite lookup_empty. simpl.
  split; [reflexivity | discriminate].
Qed.

(** ** The neighbour indices after a tick *)

Section IndexFacts.
Context `{Externals}.

(** Only the initialization tick gives the kd-trees an input cloud. *)
Lemma process_keeps_index (st st' : LaserOdometry) (r : bool) :
  systemInited st = true -> process st = Done (st', r) ->
  lastCornerKDTree st' = lastCornerKDTree st /\
  lastSurfaceKDTree st' = lastSurfaceKDTree st.
Proof.
  intros Hi Hp. destruct (hasNewData st) eqn:Hn.
  - destruct (process_later st Hn Hi) as [(j & n & E) | [E | (sharp & s & E)]];
      rewrite E in Hp; [discriminate | discriminate |].
    injection Hp as <- _. split; reflexivity.
  - rewrite (process_waiting st Hn) in Hp. injection Hp as <- _. split; reflexivity.
Qed.

Lemma process_init_index (st : LaserOdometry) :
  lastCornerKDTree (process_init st) = setInputCloud (lastCornerCloud (process_init st)) /\
  lastSurfaceKDTree (process_init st) = setInputCloud (lastSurfaceCloud (process_init st)).
Proof. split; reflexivity. Qed.

End IndexFacts.

(** C4 fails on the first tick after an initialization sweep of 11 corner
    and 101 surface points.  The tick leaves previous-sweep clouds of 12
    and 102 points, above the thresholds of the emptied block at the end
    of [process], while the kd-trees still index the clouds of the
    initialization sweep.  A search of the next tick from the origin is
    answered from the old index with position 10; in the new previous
    corner cloud that position holds a point 10 m away, and position 0
    holds the point at the origin. *)
Theorem index_not_rebuilt :
  exists st',
    @process Reference.externals Examples.big2_renewed = Done (st', true) /\
    lastCornerCloud st' =
      @transformToEnd Reference.externals (transform st') (imu st') Examples.sharp12 /\
    lastSurfaceCloud st' =
      @transformToEnd Reference.externals (transform st') (imu st') Examples.flat102 /\
    (10 < length (lastCornerCloud st'))%nat /\ (100 < length (lastSurfaceCloud st'))%nat /\
    lastCornerKDTree st' = setInputCloud Examples.corner11 /\
    lastSurfaceKDTree st' = setInputCloud Examples.surface101 /\
    lastCornerKDTree st' <> setInputCloud (lastCornerCloud st') /\
    lastSurfaceKDTree st' <> setInputCloud (lastSurfaceCloud st') /\
    @nearestKSearch Reference.externals (lastCornerKDTree st') PointXYZI_default = (10%Z, 1) /\
    exists q0 q10,
      lastCornerCloud st' !! 0%nat = Some q0 /\ lastCornerCloud st' !! 10%nat = Some q10 /\
      calcSquaredDiff q0 PointXYZI_default == 0 /\
      calcSquaredDiff q10 PointXYZI_default == 100.
Proof.
  assert (Hs : exists s, @solve Reference.externals (reset Examples.big2_renewed) = Done ([], s) /\
                         so_transform s = transformPrior (reset Examples.big2_renewed)).
  { eexists. split; vm_compute; reflexivity. }
  destruct Hs as (s & Hs & Ht).
  exists (@process_finish Reference.externals (reset Examples.big2_renewed) [] s).
  split.
  { apply (@process_solving Reference.externals); try (vm_compute; reflexivity); try exact Hs;
      vm_compute; lia. }
  split; [reflexivity |]. split; [reflexivity |].
  assert (Hlc : length (lastCornerCloud
                  (@process_finish Reference.externals (reset Examples.big2_renewed) [] s)) = 12%nat).
  { cbn [lastCornerCloud process_finish]. unfold transformToEnd. rewrite length_map.
    vm_compute. reflexivity. }
  assert (Hls : length (lastSurfaceCloud
                  (@process_finish Reference.externals (reset Examples.big2_renewed) [] s)) = 102%nat).
  { cbn [lastSurfaceCloud process_finish]. unfold transformToEnd. rewrite length_map.
    vm_compute. reflexivity. }
  split; [rewrite Hlc; lia |]. split; [rewrite Hls; lia |].
  assert (Hkc : lastCornerKDTree
                  (@process_finish Reference.externals (reset Examples.big2_renewed) [] s)
                = setInputCloud Examples.corner11) by (vm_compute; reflexivity).
  assert (Hks : lastSurfaceKDTree
                  (@process_finish Reference.externals (reset Examples.big2_renewed) [] s)
                = setInputCloud Examples.surface101) by (vm_compute; reflexivity).
  split; [exact Hkc |]. split; [exact Hks |].
  split.
  { rewrite Hkc. intros E.
    apply (f_equal (fun kd : KdTreeFLANN => match kd with Some c => length c | None => 0%nat end)) in E.
    cbv beta iota delta [setInputCloud] in E. rewrite Hlc in E. vm_compute in E. discriminate. }
  split.
  { rewrite Hks. intros E.
    apply (f_equal (fun kd : KdTreeFLANN => match kd with Some c => length c | None => 0%nat end)) in E.
    cbv beta iota delta [setInputCloud] in E. rewrite Hls in E. vm_compute in E. discriminate. }
  split; [rewrite Hkc; vm_compute; reflexivity |].
  cbn [lastCornerCloud process_finish]. rewrite Ht. unfold transformToEnd.
  do 2 eexists. rewrite !list_lookup_fmap.
  split; [vm_compute; reflexivity |]. split; [vm_compute; reflexivity |].
  split; vm_compute; reflexivity.
Qed.

(** ** The degeneracy analysis *)

Lemma degeneracyScan_largest_first (matE : Vec) (matV : Mat) :
  10 <= vget matE 5 -> degeneracyScan 6 matE matV false = (false, matV).
Proof.
  intros Hge. simpl. replace (vget eignThre 5) with 10 by reflexivity.
  apply Qltb_ge in Hge. now rewrite Hge.
Qed.

(** On eigenvalues in increasing order the scan zeroes nothing or
    everything. *)
Lemma degeneracyScan_all_or_nothing (matE : Vec) (matV : Mat) :
  increasing6 matE ->
  degeneracyScan 6 matE matV false =
    if Qltb (vget matE 5) 10
    then (true, zeroRow 0 (zeroRow 1 (zeroRow 2 (zeroRow 3 (zeroRow 4 (zeroRow 5 matV))))))
    else (false, matV).
Proof.
  intros (H01 & H12 & H23 & H34 & H45).
  destruct (Qltb (vget matE 5) 10) eqn:E5.
  - apply Qltb_lt in E5.
    assert (E4 : Qltb (vget matE 4) 10 = true) by (apply Qltb_lt; lra).
    assert (E3 : Qltb (vget matE 3) 10 = true) by (apply Qltb_lt; lra).
    assert (E2 : Qltb (vget matE 2) 10 = true) by (apply Qltb_lt; lra).
    assert (E1 : Qltb (vget matE 1) 10 = true) by (apply Qltb_lt; lra).
    assert (E0 : Qltb (vget matE 0) 10 = true) by (apply Qltb_lt; lra).
    apply Qltb_lt in E5.
    cbn [degeneracyScan]. change (vget eignThre _) with 10.
    now rewrite E5, E4, E3, E2, E1, E0.
  - apply degeneracyScan_largest_first. now apply Qltb_ge.
Qed.

(** C1 fails for [matAtA] = diag(1, 20, 30, 40, 50, 60), whose eigenvalues
    in increasing order are 1, 20, ..., 60 with the unit vectors as
    eigenvectors: the scan looks at 60 first and stops, nothing is zeroed,
    the system is not flagged degenerate, and P is the identity, so P keeps
    the eigenvector of the eigenvalue 1 instead of mapping it to zero. *)
Theorem degeneracy_keeps_small_eigenvalue :
  let matAtA := map (fun i => map (fun j => if Nat.eqb i j then vget [1; 20; 30; 40; 50; 60] i else 0)
                                  (seq 0 6)) (seq 0 6) in
  let matE := [1; 20; 30; 40; 50; 60] in
  let matV := identity 6 in
  let v := [1; 0; 0; 0; 0; 0] in
  Reference.diag_eigen matAtA = (matE, matV) /\
  mvmul matAtA v = map (Qmult 1) v /\
  @degeneracy Reference.externals matE matV = (false, identity 6) /\
  mvmul (snd (@degeneracy Reference.externals matE matV)) v = v /\
  mvmul (snd (@degeneracy Reference.externals matE matV)) v <> [0; 0; 0; 0; 0; 0] /\
  (forall matX, projectUpdate (fst (@degeneracy Reference.externals matE matV))
                              (snd (@degeneracy Reference.externals matE matV)) matX = matX).
Proof.
  cbv zeta. split; [vm_compute; reflexivity |]. split; [vm_compute; reflexivity |].
  assert (E : @degeneracy Reference.externals [1; 20; 30; 40; 50; 60] (identity 6)
              = (false, identity 6)) by (vm_compute; reflexivity).
  rewrite E. split; [reflexivity |]. split; [vm_compute; reflexivity |].
  split; [vm_compute; discriminate | reflexivity].
Qed.

(** ** The second pass of the correspondence search *)

Section ScanFacts.
Context `{Externals}.

Lemma bind_Done {A B : Type} (a : A) (f : A -> Run B) : (x ← Done a; f x) = f a.
Proof. reflexivity. Qed.

(** A forward scan that ends inside the cloud reads inside the cloud. *)
Lemma cornerForward_safe (cloud : Cloud) (p : PointXYZI) (scan : Z) (fuel : nat) :
  forall (j : Z) (acc : Q * Z),
    (0 <= j)%Z -> (j + Z.of_nat fuel <= Z.of_nat (length cloud))%Z ->
    exists r, cornerForward cloud p scan fuel j acc = Done r.
Proof.
  induction fuel as [| fuel IH]; intros j acc H0 Hb; simpl; [eauto |].
  destruct (at_in_range cloud j ltac:(lia)) as [pj ->]. rewrite bind_Done.
  destruct (Qgtb _ _); [eauto |]. apply IH; lia.
Qed.

Lemma surfForward_safe (cloud : Cloud) (p : PointXYZI) (scan : Z) (fuel : nat) :
  forall (j : Z) (acc : SurfAcc),
    (0 <= j)%Z -> (j + Z.of_nat fuel <= Z.of_nat (length cloud))%Z ->
    exists r, surfForward cloud p scan fuel j acc = Done r.
Proof.
  induction fuel as [| fuel IH]; intros j acc H0 Hb; simpl; [eauto |].
  destruct (at_in_range cloud j ltac:(lia)) as [pj ->]. rewrite bind_Done.
  destruct (Qgtb _ _); [eauto |]. destruct acc as [[[d2 i2] d3] i3]. apply IH; lia.
Qed.

(** The backward scans read inside the cloud. *)
Lemma cornerBackward_safe (cloud : Cloud) (p : PointXYZI) (scan : Z) (n : nat) :
  forall acc : Q * Z,
    (n <= length cloud)%nat -> exists r, cornerBackward cloud p scan n acc = Done r.
Proof.
  induction n as [| n IH]; intros acc Hb; simpl; [eauto |].
  destruct (at_in_range cloud (Z.of_nat n) ltac:(lia)) as [pj ->]. rewrite bind_Done.
  destruct (Qltb _ _); [eauto |]. apply IH; lia.
Qed.

Lemma surfBackward_safe (cloud : Cloud) (p : PointXYZI) (scan : Z) (n : nat) :
  forall acc : SurfAcc,
    (n <= length cloud)%nat -> exists r, surfBackward cloud p scan n acc = Done r.
Proof.
  induction n as [| n IH]; intros acc Hb; simpl; [eauto |].
  destruct (at_in_range cloud (Z.of_nat n) ltac:(lia)) as [pj ->]. rewrite bind_Done.
  destruct (Qltb _ _); [eauto |]. destruct acc as [[[d2 i2] d3] i3]. apply IH; lia.
Qed.

(** With a bound that is at most the size of the scanned cloud, and a
    nearest neighbour inside it, the corner search reads inside the cloud. *)
Lemma cornerSearch_safe (kd : KdTreeFLANN) (cloud : Cloud) (p : PointXYZI) (num : nat) :
  (Z.of_nat (length cloud) < size_t_max)%Z ->
  (0 <= fst (nearestKSearch kd p) < Z.of_nat (length cloud))%Z ->
  (num <= length cloud)%nat ->
  exists r, cornerSearch kd cloud p num = Done r.
Proof.
  intros Hsz Hnn Hnum. unfold cornerSearch.
  destruct (nearestKSearch kd p) as [ind sq]. simpl in Hnn.
  destruct (Qltb sq 25); [| eauto].
  destruct (at_in_range cloud ind Hnn) as [pc ->]. rewrite bind_Done.
  assert (Ej : to_size_t (ind + 1) = (ind + 1)%Z)
    by (unfold to_size_t; apply Z.mod_small; lia).
  rewrite Ej.
  destruct (cornerForward_safe cloud p (to_int (intensity pc))
              (Z.to_nat (Z.of_nat num - (ind + 1))) (ind + 1)%Z (25, (-1)%Z))
    as [fw ->]; [lia | lia |].
  rewrite bind_Done.
  destruct (cornerBackward_safe cloud p (to_int (intensity pc)) (Z.to_nat ind) fw)
    as [bw ->]; [lia |].
  rewrite bind_Done. eauto.
Qed.

Lemma surfSearch_safe (kd : KdTreeFLANN) (cloud : Cloud) (p : PointXYZI) (num : nat) :
  (Z.of_nat (length cloud) < size_t_max)%Z ->
  (0 <= fst (nearestKSearch kd p) < Z.of_nat (length cloud))%Z ->
  (num <= length cloud)%nat ->
  exists r, surfSearch kd cloud p num = Done r.
Proof.
  intros Hsz Hnn Hnum. unfold surfSearch.
  destruct (nearestKSearch kd p) as [ind sq]. simpl in Hnn.
  destruct (Qltb sq 25); [| eauto].
  destruct (at_in_range cloud ind Hnn) as [pc ->]. rewrite bind_Done.
  assert (Ej : to_size_t (ind + 1) = (ind + 1)%Z)
    by (unfold to_size_t; apply Z.mod_small; lia).
  rewrite Ej.
  destruct (surfForward_safe cloud p (to_int (intensity pc))
              (Z.to_nat (Z.of_nat num - (ind + 1))) (ind + 1)%Z (25, (-1)%Z, 25, (-1)%Z))
    as [fw ->]; [lia | lia |].
  rewrite bind_Done.
  destruct (surfBackward_safe cloud p (to_int (intensity pc)) (Z.to_nat ind) fw)
    as [[[[d2 i2] d3] i3] ->]; [lia |].
  rewrite bind_Done. eauto.
Qed.

End ScanFacts.

(** C7 fails when the current sweep has more sharp (flat) points than the
    previous sweep has corner (surface) points.  The forward scans are
    bounded by the number of query points: with 12 sharp points and the
    nearest neighbour at the last position, 10, of an 11-point previous
    corner cloud, the scan reads position 11; with 102 flat points and the
    nearest neighbour at the last position, 100, of a 101-point previous
    surface cloud, it reads position 101.  So does [process] on such a
    sweep right after initialization. *)
Theorem forward_scan_leaves_cloud :
  length Examples.corner11 = 11%nat /\ length Examples.sharp12 = 12%nat /\
  length Examples.surface101 = 101%nat /\ length Examples.flat102 = 102%nat /\
  fst (@nearestKSearch Reference.externals (Some Examples.corner11) PointXYZI_default) = 10%Z /\
  fst (@nearestKSearch Reference.externals (Some Examples.surface101) PointXYZI_default) = 100%Z /\
  @cornerSearch Reference.externals (Some Examples.corner11) Examples.corner11
     PointXYZI_default (length Examples.sharp12) = OutOfRange 11 11 /\
  @surfSearch Reference.externals (Some Examples.surface101) Examples.surface101
     PointXYZI_default (length Examples.flat102) = OutOfRange 101 101 /\
  @process Reference.externals Examples.big2_more_sharp = OutOfRange 11 11 /\
  @process Reference.externals Examples.big2_more_flat = OutOfRange 101 101.
Proof. repeat split; vm_compute; reflexivity. Qed.

(** ** The position handed to the correspondence search *)

Lemma searched_spec (x : Run (LaserOdometry * bool)) (r : bool) (c f : list Z) :
  Examples.searched x = Some (r, c, f) ->
  exists st', x = Done (st', r) /\ pointSearchCornerInd1 st' = c /\ pointSearchSurfInd1 st' = f.
Proof.
  destruct x as [[st' r'] | j n |]; simpl; [| discriminate | discriminate].
  intros [= -> <- <-]. eauto.
Qed.

Section QueryPoints.
Context `{Externals}.

Lemma sameRun_bind (x y : Run SolverState) (f g : SolverState -> Run SolverState) :
  sameRun x y -> (forall a b, sameSearch a b -> sameRun (f a) (g b)) ->
  sameRun (a ← x; f a) (b ← y; g b).
Proof.
  destruct x as [a | j n |], y as [b | j' n' |]; simpl; try tauto.
  intros Hab Hfg. now apply Hfg.
Qed.

Lemma for_each_same (body body' : SolverState -> nat -> Run SolverState) (n : nat) :
  (forall i a b, (i < n)%nat -> sameSearch a b -> sameRun (body a i) (body' b i)) ->
  forall s s', sameSearch s s' -> sameRun (for_each body n s) (for_each body' n s').
Proof.
  intros Hbody s s' Hs. unfold for_each.
  assert (Hl : Forall (fun i => (i < n)%nat) (seq 0 n)).
  { apply Forall_forall. intros i Hi. apply elem_of_seq in Hi. lia. }
  assert (Hx : sameRun (Done s) (Done s')) by exact Hs.
  revert Hl Hx. generalize (Done s) (Done s') (seq 0 n).
  intros x y l. revert x y. induction l as [| i l IH]; intros x y Hl Hx; simpl; [exact Hx |].
  inversion Hl as [| ? ? Hi Hl']; subst.
  apply IH; [exact Hl' |].
  apply sameRun_bind; [exact Hx |]. intros a b Hab. now apply Hbody.
Qed.

Lemma cornerPoint_same (kd : KdTreeFLANN) (sharp sharp' : Cloud) (it : nat) (p : PointXYZI)
    (i : nat) (s s' : SolverState) :
  length sharp = length sharp' -> (i < length sharp)%nat -> sameSearch s s' ->
  sameRun (cornerPoint kd sharp it p s i) (cornerPoint kd sharp' it p s' i).
Proof.
  intros Hlen Hi (Hc & H1 & H2 & H3 & H4 & H5 & H6).
  destruct (at_in_range sharp (Z.of_nat i) ltac:(lia)) as [q Hq].
  destruct (at_in_range sharp' (Z.of_nat i) ltac:(lia)) as [q' Hq'].
  unfold cornerPoint. rewrite Hq, Hq', <- Hlen, <- Hc, <- H1, <- H2.
  apply sameRun_bind.
  - destruct (it mod 5 =? 0)%nat; [| repeat split; assumption].
    destruct (cornerSearch _ _ _ _) as [r | j n |]; simpl; repeat split; assumption.
  - clear Hc H1 H2 H3 H4 H5 H6. intros a b (Hc & H1 & H2 & H3 & H4 & H5 & H6).
    rewrite <- Hc, <- H1, <- H2.
    destruct (ind_at (so_cornerInd2 a) i) as [k2 | j n |]; simpl; [| tauto | tauto].
    destruct (0 <=? k2)%Z; [| repeat split; assumption].
    destruct (ind_at (so_cornerInd1 a) i) as [k1 | j n |]; simpl; [| tauto | tauto].
    destruct (at_ (so_lastCornerCloud a) k1) as [t1 | j n |]; simpl; [| tauto | tauto].
    destruct (at_ (so_lastCornerCloud a) k2) as [t2 | j n |]; simpl; [| tauto | tauto].
    destruct (cornerResidual it p t1 t2) as [[coeff |] | j n |]; simpl;
      repeat split; try assumption. unfold so_push; simpl. now rewrite H6.
Qed.

Lemma surfPoint_same (kd : KdTreeFLANN) (cloud flat flat' : Cloud) (it : nat) (p : PointXYZI)
    (i : nat) (s s' : SolverState) :
  length flat = length flat' -> (i < length flat)%nat -> sameSearch s s' ->
  sameRun (surfPoint kd cloud flat it p s i) (surfPoint kd cloud flat' it p s' i).
Proof.
  intros Hlen Hi (Hc & H1 & H2 & H3 & H4 & H5 & H6).
  destruct (at_in_range flat (Z.of_nat i) ltac:(lia)) as [q Hq].
  destruct (at_in_range flat' (Z.of_nat i) ltac:(lia)) as [q' Hq'].
  unfold surfPoint. rewrite Hq, Hq', <- Hlen, <- H3, <- H4, <- H5.
  apply sameRun_bind.
  - destruct (it mod 5 =? 0)%nat; [| repeat split; assumption].
    destruct (surfSearch _ _ _ _) as [[[i1 i2] i3] | j n |]; simpl; repeat split; assumption.
  - clear Hc H1 H2 H3 H4 H5 H6. intros a b (Hc & H1 & H2 & H3 & H4 & H5 & H6).
    rewrite <- H3, <- H4, <- H5.
    destruct (ind_at (so_surfInd2 a) i) as [k2 | j n |]; simpl; [| tauto | tauto].
    destruct (0 <=? k2)%Z; [| repeat split; assumption].
    destruct (ind_at (so_surfInd3 a) i) as [k3 | j n |]; simpl; [| tauto | tauto].
    destruct (0 <=? k3)%Z; [| repeat split; assumption].
    destruct (ind_at (so_surfInd1 a) i) as [k1 | j n |]; simpl; [| tauto | tauto].
    destruct (at_ cloud k1) as [t1 | j n |]; simpl; [| tauto | tauto].
    destruct (at_ cloud k2) as [t2 | j n |]; simpl; [| tauto | tauto].
    destruct (at_ cloud k3) as [t3 | j n |]; simpl; [| tauto | tauto].
    destruct (surfResidual it p t1 t2 t3) as [[coeff |] | j n |]; simpl;
      repeat split; try assumption. unfold so_push; simpl. now rewrite H6.
Qed.

Lemma updateStep_same (st st' : LaserOdometry) (it : nat) (s s' : SolverState) :
  sameSearch s s' -> sameSearch (updateStep st it s) (updateStep st' it s').
Proof.
  intros Hs. unfold updateStep.
  destruct (length (so_laserCloudOri s) <? 10)%nat, (length (so_laserCloudOri s') <? 10)%nat;
    exact Hs.
Qed.

(** In one iteration the neighbours recorded and the coefficients selected
    are the same whatever the coordinates of the sharp and flat points of
    the current sweep, and whatever the incremental transform. *)
Lemma iteration_ignores_query_points (st st' : LaserOdometry) (sharp sharp' : Cloud)
    (it : nat) (s s' : SolverState) :
  lastCornerKDTree st = lastCornerKDTree st' ->
  lastSurfaceKDTree st = lastSurfaceKDTree st' ->
  lastSurfaceCloud st = lastSurfaceCloud st' ->
  length sharp = length sharp' ->
  length (surfPointsFlat st) = length (surfPointsFlat st') ->
  sameSearch s s' ->
  sameRun (iteration st sharp it s) (iteration st' sharp' it s').
Proof.
  intros Hkc Hks Hcl Hls Hlf Hs. unfold iteration.
  rewrite <- Hkc, <- Hks, <- Hcl, <- Hls, <- Hlf.
  apply sameRun_bind.
  - apply for_each_same.
    + intros i a b Hi Hab. now apply cornerPoint_same.
    + destruct Hs as (Hc & H1 & H2 & H3 & H4 & H5 & H6). repeat split; assumption.
  - intros a b Hab. apply sameRun_bind.
    + apply for_each_same; [| exact Hab].
      intros i a' b' Hi Hab'. now apply surfPoint_same.
    + intros a' b' Hab'. simpl. now apply updateStep_same.
Qed.
End QueryPoints.

(** C2 fails for a sharp point and a flat point 100 m away from every
    point of the previous sweep.  Re-projected by [transformToStart] they
    stay where they are, and a search from there finds no neighbour within
    5 m.  The tick nevertheless records the neighbours nearest to the
    origin, positions 10 and 100: the search is handed the
    default-constructed [pointSel], not the re-projected point. *)
Theorem search_not_at_query_point :
  let st := reset Examples.big2_far in
  let t := transformPrior st in
  let q := mkPoint 100 0 0 0 in
  let f := mkPoint 100 0 1 0 in
  cornerPointsSharp st = [q] /\ surfPointsFlat st = [f] /\
  p_x (@transformToStart Reference.externals t q) == 100 /\
  p_x (@transformToStart Reference.externals t f) == 100 /\
  @cornerSearch Reference.externals (lastCornerKDTree st) (lastCornerCloud st)
     (@transformToStart Reference.externals t q) 1 = Done ((-1)%Z, (-1)%Z) /\
  @surfSearch Reference.externals (lastSurfaceKDTree st) (lastSurfaceCloud st)
     (@transformToStart Reference.externals t f) 1 = Done ((-1)%Z, (-1)%Z, (-1)%Z) /\
  @cornerSearch Reference.externals (lastCornerKDTree st) (lastCornerCloud st)
     PointXYZI_default 1 = Done (10%Z, (-1)%Z) /\
  @surfSearch Reference.externals (lastSurfaceKDTree st) (lastSurfaceCloud st)
     PointXYZI_default 1 = Done (100%Z, 99%Z, (-1)%Z) /\
  exists st',
    @process Reference.externals Examples.big2_far = Done (st', true) /\
    pointSearchCornerInd1 st' = [10%Z] /\
    pointSearchSurfInd1 st' = [100%Z].
Proof.
  cbv zeta.
  assert (Hp : exists st', @process Reference.externals Examples.big2_far = Done (st', true) /\
                 pointSearchCornerInd1 st' = [10%Z] /\ pointSearchSurfInd1 st' = [100%Z]).
  { apply searched_spec. vm_compute. reflexivity. }
  repeat split; try exact Hp; vm_compute; reflexivity.
Qed.

(** * Further properties of the code *)

Lemma bind_inv {A B : Type} (x : Run A) (f : A -> Run B) (b : B) :
  (a ← x; f a) = Done b -> exists a, x = Done a /\ f a = Done b.
Proof. destruct x as [a | j n |]; simpl; [eauto | discriminate | discriminate]. Qed.

Lemma fold_OutOfRange {S : Type} (body : S -> nat -> Run S) (l : list nat) (j : Z) (n : nat) :
  fold_left (fun acc i => s' ← acc; body s' i) l (OutOfRange j n) = OutOfRange j n.
Proof. induction l as [| i l IH]; simpl; [reflexivity | exact IH]. Qed.

Lemma fold_NotFinite {S : Type} (body : S -> nat -> Run S) (l : list nat) :
  fold_left (fun acc i => s' ← acc; body s' i) l NotFinite = NotFinite.
Proof. induction l as [| i l IH]; simpl; [reflexivity | exact IH]. Qed.

(** An invariant indexed by the number of passes made holds after a
    [for] loop that returns. *)
Lemma for_each_inv {S : Type} (P : nat -> S -> Prop) (body : S -> nat -> Run S)
    (n : nat) (s s' : S) :
  P 0%nat s ->
  (forall i a b, (i < n)%nat -> P i a -> body a i = Done b -> P (Datatypes.S i) b) ->
  for_each body n s = Done s' -> P n s'.
Proof.
  intros H0 Hstep. unfold for_each.
  assert (G : forall m k a, (k + m = n)%nat -> P k a ->
            fold_left (fun acc i => x ← acc; body x i) (seq k m) (Done a) = Done s' -> P n s').
  { induction m as [| m IH]; intros k a Hk Pa Hf; simpl in Hf.
    - injection Hf as <-. replace n with k by lia. exact Pa.
    - destruct (body a k) as [b | j q |] eqn:Eb.
      + apply (IH (Datatypes.S k) b); [lia | | exact Hf].
        apply (Hstep k a b); [lia | exact Pa | exact Eb].
      + rewrite fold_OutOfRange in Hf. discriminate.
      + rewrite fold_NotFinite in Hf. discriminate. }
  intros Hf. apply (G n 0%nat s); [lia | exact H0 | exact Hf].
Qed.

Section Frames.
Context `{Externals}.

Lemma cornerPoint_frame (kd : KdTreeFLANN) (sharp : Cloud) (it : nat) (p : PointXYZI)
    (s s' : SolverState) (i : nat) :
  cornerPoint kd sharp it p s i = Done s' -> sameFrame s s'.
Proof.
  unfold cornerPoint. intros Hc.
  apply bind_inv in Hc as (s1 & H1 & Hc).
  assert (F1 : sameFrame s s1 /\ so_laserCloudOri s1 = so_laserCloudOri s).
  { destruct (it mod 5 =? 0)%nat.
    - apply bind_inv in H1 as (r & _ & H1). injection H1 as <-.
      unfold sameFrame; simpl. rewrite removeNaN_id, !length_insert.
      repeat split; lia.
    - injection H1 as <-. unfold sameFrame. repeat split; lia. }
  destruct F1 as (F1 & Ho).
  apply bind_inv in Hc as (k2 & _ & Hc).
  assert (Fp : forall q c, sameFrame s (so_push s1 q c)).
  { intros q c. destruct F1 as (?&?&?&?&?&?&?&?&?&?&?&?).
    unfold sameFrame; simpl. rewrite Ho, length_app. simpl.
    repeat split; try assumption; lia. }
  destruct (0 <=? k2)%Z; [| injection Hc as <-; exact F1].
  apply bind_inv in Hc as (k1 & _ & Hc).
  apply bind_inv in Hc as (t1 & _ & Hc).
  apply bind_inv in Hc as (t2 & _ & Hc).
  apply bind_inv in Hc as (rc & _ & Hc).
  destruct rc as [c |]; [| injection Hc as <-; exact F1].
  apply bind_inv in Hc as (q & _ & Hc). injection Hc as <-. apply Fp.
Qed.

Lemma surfPoint_frame (kd : KdTreeFLANN) (cloud flat : Cloud) (it : nat) (p : PointXYZI)
    (s s' : SolverState) (i : nat) :
  surfPoint kd cloud flat it p s i = Done s' -> sameFrame s s'.
Proof.
  unfold surfPoint. intros Hc.
  apply bind_inv in Hc as (s1 & H1 & Hc).
  assert (F1 : sameFrame s s1 /\ so_laserCloudOri s1 = so_laserCloudOri s).
  { destruct (it mod 5 =? 0)%nat.
    - apply bind_inv in H1 as ([[i1 i2] i3] & _ & H1). injection H1 as <-.
      unfold sameFrame; simpl. rewrite !length_insert.
      repeat split; lia.
    - injection H1 as <-. unfold sameFrame. repeat split; lia. }
  destruct F1 as (F1 & Ho).
  apply bind_inv in Hc as (k2 & _ & Hc).
  assert (Fp : forall q c, sameFrame s (so_push s1 q c)).
  { intros q c. destruct F1 as (?&?&?&?&?&?&?&?&?&?&?&?).
    unfold sameFrame; simpl. rewrite Ho, length_app. simpl.
    repeat split; try assumption; lia. }
  destruct (0 <=? k2)%Z; [| injection Hc as <-; exact F1].
  apply bind_inv in Hc as (k3 & _ & Hc).
  destruct (0 <=? k3)%Z; [| injection Hc as <-; exact F1].
  apply bind_inv in Hc as (k1 & _ & Hc).
  apply bind_inv in Hc as (t1 & _ & Hc).
  apply bind_inv in Hc as (t2 & _ & Hc).
  apply bind_inv in Hc as (t3 & _ & Hc).
  apply bind_inv in Hc as (rc & _ & Hc).
  destruct rc as [c |]; [| injection Hc as <-; exact F1].
  apply bind_inv in Hc as (q & _ & Hc). injection Hc as <-. apply Fp.
Qed.

Lemma frameN_step (k : nat) (s a b : SolverState) :
  frameN k s a -> sameFrame a b -> frameN (S k) s b.
Proof.
  intros (T1&C1&D1&M1&V1&A1&B1&E1&F1&G1&O1) (T2&C2&D2&M2&V2&A2&B2&E2&F2&G2&_&O2).
  unfold frameN. repeat split; try congruence; lia.
Qed.

Lemma frameN_refl (s : SolverState) : frameN 0 s s.
Proof. unfold frameN. repeat split; lia. Qed.

Lemma frameN_trans (k m : nat) (s a b : SolverState) :
  frameN k s a -> frameN m a b -> frameN (k + m) s b.
Proof.
  intros (T1&C1&D1&M1&V1&A1&B1&E1&F1&G1&O1) (T2&C2&D2&M2&V2&A2&B2&E2&F2&G2&O2).
  unfold frameN. repeat split; try congruence; lia.
Qed.

(** The two correspondence loops of an iteration select at most one
    correspondence per query point and change nothing else but the cached
    indices, whose number stays. *)
Lemma iteration_shape (st : LaserOdometry) (sharp : Cloud) (it : nat) (s s' : SolverState) :
  iteration st sharp it s = Done s' ->
  exists b, frameN (length sharp + length (surfPointsFlat st)) (so_clear s) b /\
            s' = updateStep st it b.
Proof.
  unfold iteration. intros Hi.
  apply bind_inv in Hi as (a & Ha & Hi). apply bind_inv in Hi as (b & Hb & Hi).
  injection Hi as <-. exists b. split; [| reflexivity].
  apply frameN_trans with (a := a).
  - apply (for_each_inv (fun k x => frameN k (so_clear s) x) _ _ _ _ (frameN_refl _)) in Ha;
      [exact Ha |].
    intros i x y _ Hx Hy. eapply frameN_step; [exact Hx |]. eapply cornerPoint_frame; exact Hy.
  - apply (for_each_inv (fun k x => frameN k a x) _ _ _ _ (frameN_refl _)) in Hb; [exact Hb |].
    intros i x y _ Hx Hy. eapply frameN_step; [exact Hx |]. eapply surfPoint_frame; exact Hy.
Qed.

(** An invariant of the iterations holds when the solver loop returns. *)
Lemma solverLoop_inv (st : LaserOdometry) (sharp : Cloud) (P : SolverState -> Prop) :
  (forall it a b, P a -> iteration st sharp it a = Done b -> P b) ->
  forall fuel it s s', P s -> solverLoop st sharp fuel it s = Done s' -> P s'.
Proof.
  intros Hstep. induction fuel as [| fuel IH]; intros it s s' Ps Hl; simpl in Hl.
  - injection Hl as <-. exact Ps.
  - apply bind_inv in Hl as (s1 & H1 & Hl).
    pose proof (Hstep it s s1 Ps H1) as P1.
    destruct (so_isConverged s1); [injection Hl as <-; exact P1 |].
    eapply IH; eassumption.
Qed.

(** What a tick that returns has gone through. *)
Lemma process_done (st st' : LaserOdometry) (r : bool) :
  process st = Done (st', r) ->
  (hasNewData st = false /\ st' = st /\ r = false) \/
  (hasNewData st = true /\ systemInited st = false /\ st' = process_init (reset st) /\ r = false) \/
  (hasNewData st = true /\ systemInited st = true /\ r = true /\
   (((10 < length (lastCornerCloud st))%nat /\ (100 < length (lastSurfaceCloud st))%nat /\
     exists s, solve (reset st) = Done (cornerPointsSharp st, s) /\
               st' = process_finish (reset st) (cornerPointsSharp st) s) \/
    (((length (lastCornerCloud st) <= 10)%nat \/ (length (lastSurfaceCloud st) <= 100)%nat) /\
     st' = process_finish (reset st) (cornerPointsSharp st) (solverEntry (reset st))))).
Proof.
  intros Hp. destruct (hasNewData st) eqn:Hn.
  - right. destruct (systemInited st) eqn:Hi.
    + right. unfold process in Hp. rewrite Hn in Hp. simpl in Hp. rewrite Hi in Hp. simpl in Hp.
      destruct (10 <? length (lastCornerCloud st))%nat eqn:E1;
        [destruct (100 <? length (lastSurfaceCloud st))%nat eqn:E2 |]; simpl in Hp.
      * apply bind_inv in Hp as ([sharp s] & Hs & Hp). injection Hp as <- <-.
        assert (Hsh : sharp = cornerPointsSharp st).
        { unfold solve in Hs. apply bind_inv in Hs as (x & _ & Hs). injection Hs as <- _.
          apply removeNaN_id. }
        subst sharp. do 3 (split; [reflexivity |]). left.
        apply Nat.ltb_lt in E1, E2. repeat split; try assumption. eauto.
      * injection Hp as <- <-. do 3 (split; [reflexivity |]). right.
        apply Nat.ltb_ge in E2. tauto.
      * injection Hp as <- <-. do 3 (split; [reflexivity |]). right.
        apply Nat.ltb_ge in E1. tauto.
    + left. rewrite (process_first st Hn Hi) in Hp. injection Hp as <- <-. tauto.
  - left. rewrite (process_waiting st Hn) in Hp. injection Hp as <- <-. tauto.
Qed.

Lemma updateStep_keeps (st : LaserOdometry) (it : nat) (b : SolverState) :
  so_lastCornerCloud (updateStep st it b) = so_lastCornerCloud b /\
  so_cornerInd1 (updateStep st it b) = so_cornerInd1 b /\
  so_cornerInd2 (updateStep st it b) = so_cornerInd2 b /\
  so_surfInd1 (updateStep st it b) = so_surfInd1 b /\
  so_surfInd2 (updateStep st it b) = so_surfInd2 b /\
  so_surfInd3 (updateStep st it b) = so_surfInd3 b /\
  so_laserCloudOri (updateStep st it b) = so_laserCloudOri b /\
  so_coeffSel (updateStep st it b) = so_coeffSel b.
Proof. unfold updateStep. destruct (_ <? 10)%nat; repeat split. Qed.

Lemma updateStep_few (st : LaserOdometry) (it : nat) (b : SolverState) :
  (length (so_laserCloudOri b) < 10)%nat -> updateStep st it b = b.
Proof. intros Hl. unfold updateStep. apply Nat.ltb_lt in Hl. now rewrite Hl. Qed.

(** The solver block keeps the previous corner cloud and leaves one cached
    index per query point. *)
Lemma solve_frame (st : LaserOdometry) (sharp : Cloud) (s : SolverState) :
  solve st = Done (sharp, s) ->
  so_lastCornerCloud s = lastCornerCloud st /\
  length (so_cornerInd1 s) = length sharp /\
  length (so_cornerInd2 s) = length sharp /\
  length (so_surfInd1 s) = length (surfPointsFlat st) /\
  length (so_surfInd2 s) = length (surfPointsFlat st) /\
  length (so_surfInd3 s) = length (surfPointsFlat st).
Proof.
  unfold solve. intros Hs. apply bind_inv in Hs as (s' & Hl & Hs). injection Hs as <- <-.
  eapply (solverLoop_inv _ _ (fun x =>
            so_lastCornerCloud x = lastCornerCloud st /\
            length (so_cornerInd1 x) = length (removeNaNFromPointCloud (cornerPointsSharp st)) /\
            length (so_cornerInd2 x) = length (removeNaNFromPointCloud (cornerPointsSharp st)) /\
            length (so_surfInd1 x) = length (surfPointsFlat st) /\
            length (so_surfInd2 x) = length (surfPointsFlat st) /\
            length (so_surfInd3 x) = length (surfPointsFlat st))); [ | | exact Hl].
  - intros it a b (Pc & P1 & P2 & P3 & P4 & P5) Hi.
    apply iteration_shape in Hi as (x & (T&C&D&M&V&A1&A2&A3&A4&A5&O) & ->).
    destruct (updateStep_keeps st it x) as (K0 & K1 & K2 & K3 & K4 & K5 & _).
    rewrite K0, K1, K2, K3, K4, K5. simpl in *. repeat split; congruence.
  - simpl. rewrite !length_resize. repeat split.
Qed.

(** With fewer than ten query points no iteration reaches the normal
    equations: the solver block returns the transform it was entered
    with. *)
Lemma solve_few_points (st : LaserOdometry) (sharp : Cloud) (s : SolverState) :
  (length (cornerPointsSharp st) + length (surfPointsFlat st) < 10)%nat ->
  solve st = Done (sharp, s) ->
  so_transform s = transformPrior st.
Proof.
  unfold solve. intros Hn Hs. apply bind_inv in Hs as (s' & Hl & Hs). injection Hs as <- <-.
  rewrite removeNaN_id in Hl.
  cut (so_transform s' = transformPrior st /\ so_isConverged s' = false); [tauto |].
  eapply (solverLoop_inv _ _ (fun x =>
            so_transform x = transformPrior st /\ so_isConverged x = false)); [ | | exact Hl].
  - intros it a b (Pt & Pc) Hi.
    apply iteration_shape in Hi as (x & (T&C&D&M&V&A1&A2&A3&A4&A5&O) & ->).
    simpl in O. rewrite updateStep_few by lia. simpl in *. split; congruence.
  - simpl. split; reflexivity.
Qed.

End Frames.

(** X1: a second call of [process] without new input does nothing: after
    any call that returns, the next call returns false and leaves the
    object as it is. *)
Theorem process_idle_after_tick `{Externals} (st st' : LaserOdometry) (r : bool) :
  process st = Done (st', r) -> process st' = Done (st', false).
Proof.
  intros Hp. apply process_waiting.
  destruct (process_done st st' r Hp)
    as [(Hn & -> & _) | [(_ & _ & -> & _) | (_ & _ & _ & [(_ & _ & s & _ & ->) | (_ & ->)])]];
    [exact Hn | reflexivity ..].
Qed.

Lemma process_idle_after_tick_witness :
  @process Reference.externals (Examples.after Examples.tick2)
    = Done (Examples.after Examples.tick2, false).
Proof.
  apply (@process_idle_after_tick Reference.externals Examples.tick2 _ true).
  vm_compute. reflexivity.
Defined.

(** X2: [process] never changes the configuration, the six time stamps, the
    IMU hints, the flat cloud or the full-resolution cloud. *)
Theorem process_keeps_inputs `{Externals} (st st' : LaserOdometry) (r : bool) :
  process st = Done (st', r) ->
  params st' = params st /\ imu st' = imu st /\
  timeCornerPointsSharp st' = timeCornerPointsSharp st /\
  timeCornerPointsLessSharp st' = timeCornerPointsLessSharp st /\
  timeSurfPointsFlat st' = timeSurfPointsFlat st /\
  timeSurfPointsLessFlat st' = timeSurfPointsLessFlat st /\
  timeLaserCloudFullRes st' = timeLaserCloudFullRes st /\
  timeImuTrans st' = timeImuTrans st /\
  surfPointsFlat st' = surfPointsFlat st /\
  laserCloudFullRes st' = laserCloudFullRes st.
Proof.
  intros Hp.
  destruct (process_done st st' r Hp)
    as [(_ & -> & _) | [(_ & _ & -> & _) | (_ & _ & _ & [(_ & _ & s & _ & ->) | (_ & ->)])]];
    repeat split.
Qed.

Lemma process_keeps_inputs_witness :
  params (Examples.after Examples.tick2) = Examples.params0 /\
  laserCloudFullRes (Examples.after Examples.tick2) = Examples.cloudT.
Proof.
  destruct (@process_keeps_inputs Reference.externals Examples.tick2
              (Examples.after Examples.tick2) true ltac:(vm_compute; reflexivity))
    as (Hp & _ & _ & _ & _ & _ & _ & _ & _ & Hf).
  split; [rewrite Hp | rewrite Hf]; vm_compute; reflexivity.
Defined.

(** X3: [process] returns true exactly on a valid tick of an initialized
    object, and the frame count grows by one exactly then; a valid tick
    leaves the object initialized and no call un-initializes it. *)
Theorem process_return_value `{Externals} (st st' : LaserOdometry) (r : bool) :
  process st = Done (st', r) ->
  (r = true <-> tickValid st /\ systemInited st = true) /\
  frameCount st' = (if r then frameCount st + 1 else frameCount st)%Z /\
  (tickValid st -> systemInited st' = true) /\
  (systemInited st = true -> systemInited st' = true).
Proof.
  intros Hp. rewrite <- hasNewData_valid.
  destruct (process_done st st' r Hp)
    as [(Hn & -> & ->) | [(Hn & Hi & -> & ->) |
        (Hn & Hi & -> & [(_ & _ & s & _ & ->) | (_ & ->)])]];
    simpl; rewrite ?Hn, ?Hi; repeat split; try tauto; try congruence;
    intros (? & ?); congruence.
Qed.

Lemma process_return_value_witness :
  frameCount (Examples.after Examples.tick2) = 1%Z /\
  frameCount (Examples.after Examples.tick1) = 0%Z.
Proof.
  destruct (@process_return_value Reference.externals Examples.tick2
              (Examples.after Examples.tick2) true ltac:(vm_compute; reflexivity))
    as (_ & H2 & _).
  destruct (@process_return_value Reference.externals Examples.tick1
              (Examples.after Examples.tick1) false ltac:(vm_compute; reflexivity))
    as (_ & H1 & _).
  split; [rewrite H2 | rewrite H1]; vm_compute; reflexivity.
Defined.

Lemma to_int_inject_Z (z : Z) : to_int (inject_Z z) = z.
Proof. unfold to_int, inject_Z. simpl. apply Z.quot_1_r. Qed.

Section EndFacts.
Context `{Externals}.

Lemma transformToEnd_point_channel (t : Twist) (i : ImuTrans) (p : PointXYZI) :
  intensity (transformToEnd_point t i p) = inject_Z (scanRing p).
Proof. reflexivity. Qed.

Lemma transformToEnd_point_ring (t : Twist) (i : ImuTrans) (p : PointXYZI) :
  scanRing (transformToEnd_point t i p) = scanRing p.
Proof.
  unfold scanRing at 1. rewrite transformToEnd_point_channel. apply to_int_inject_Z.
Qed.

Lemma transformToEnd_rings (t : Twist) (i : ImuTrans) (c : Cloud) :
  map scanRing (transformToEnd t i c) = map scanRing c.
Proof.
  unfold transformToEnd. rewrite map_map. apply map_ext. intros p.
  apply transformToEnd_point_ring.
Qed.

End EndFacts.

(** X4: [transformToEnd] keeps the number of points and the scan ring of
    every point, and strips the sweep-time fraction of every channel, so
    that the interpolation factor s of a de-skewed point is 0. *)
Theorem transformToEnd_canonical `{Externals} (t : Twist) (i : ImuTrans) (c : Cloud) :
  length (transformToEnd t i c) = length c /\
  map scanRing (transformToEnd t i c) = map scanRing c /\
  Forall (fun p => intensity p = inject_Z (scanRing p) /\
                   10 * (intensity p - inject_Z (to_int (intensity p))) == 0)
         (transformToEnd t i c).
Proof.
  split; [apply length_map |]. split; [apply transformToEnd_rings |].
  unfold transformToEnd. apply Forall_forall. intros q Hq.
  apply list_elem_of_fmap in Hq as (p & -> & _).
  rewrite transformToEnd_point_ring, transformToEnd_point_channel.
  split; [reflexivity |]. rewrite to_int_inject_Z. ring.
Qed.

(** X5: buffer swap.  After a valid tick that returns, the less-sharp and
    less-flat slots hold the clouds that were the previous sweep before the
    tick, and the previous-sweep slots hold as many points, on the same scan
    rings, as the tick's less-sharp and less-flat inputs. *)
Theorem process_swaps_buffers `{Externals} (st st' : LaserOdometry) (r : bool) :
  tickValid st -> process st = Done (st', r) ->
  cornerPointsLessSharp st' = lastCornerCloud st /\
  surfPointsLessFlat st' = lastSurfaceCloud st /\
  length (lastCornerCloud st') = length (cornerPointsLessSharp st) /\
  length (lastSurfaceCloud st') = length (surfPointsLessFlat st) /\
  map scanRing (lastCornerCloud st') = map scanRing (cornerPointsLessSharp st) /\
  map scanRing (lastSurfaceCloud st') = map scanRing (surfPointsLessFlat st).
Proof.
  intros Hv Hp. apply hasNewData_valid in Hv.
  destruct (process_done st st' r Hp)
    as [(Hn & _) | [(_ & _ & -> & _) | (_ & _ & _ & [(_ & _ & s & Hs & ->) | (_ & ->)])]].
  - congruence.
  - repeat split.
  - apply solve_frame in Hs as (Hc & _). simpl.
    unfold transformToEnd at 1 2. rewrite !length_map, !transformToEnd_rings.
    repeat split. exact Hc.
  - simpl. unfold transformToEnd at 1 2. rewrite !length_map, !transformToEnd_rings.
    repeat split.
Qed.

Lemma process_swaps_buffers_witness :
  cornerPointsLessSharp (Examples.after Examples.tick2) = Examples.cloudA /\
  map scanRing (lastCornerCloud (Examples.after Examples.tick2)) = [0%Z; 1%Z].
Proof.
  assert (Hv : tickValid Examples.tick2) by (vm_compute; tauto).
  destruct (@process_swaps_buffers Reference.externals Examples.tick2
              (Examples.after Examples.tick2) true Hv ltac:(vm_compute; reflexivity))
    as (Hc & _ & _ & _ & Hr & _).
  split; [rewrite Hc | rewrite Hr]; vm_compute; reflexivity.
Defined.

(** X6: too few query points.  On a valid tick of an initialized object
    whose sharp and flat clouds together have fewer than ten points, no
    iteration can select the ten correspondences an update needs: if the
    tick returns, the incremental transform is the one the solver was
    entered with and the pose is accumulated from it. *)
Theorem process_few_query_points `{Externals} (st st' : LaserOdometry) (r : bool) :
  tickValid st -> systemInited st = true ->
  (length (cornerPointsSharp st) + length (surfPointsFlat st) < 10)%nat ->
  process st = Done (st', r) ->
  r = true /\
  transform st' = transformPrior st /\
  transformSum st' = accumulatePose st (transformPrior st).
Proof.
  intros Hv Hi Hfew Hp. apply hasNewData_valid in Hv.
  destruct (process_done st st' r Hp)
    as [(Hn & _) | [(_ & Hi' & _) | (_ & _ & -> & [(_ & _ & s & Hs & ->) | (_ & ->)])]];
    try congruence.
  - apply solve_few_points in Hs; [| exact Hfew]. simpl. rewrite Hs. repeat split.
  - repeat split.
Qed.

Lemma big2_far_returns :
  exists st', @process Reference.externals Examples.big2_far = Done (st', true).
Proof.
  destruct (searched_spec (@process Reference.externals Examples.big2_far) true [10%Z] [100%Z])
    as (st' & E & _); [vm_compute; reflexivity | eauto].
Qed.

Lemma process_few_query_points_witness :
  exists st',
    @process Reference.externals Examples.big2_far = Done (st', true) /\
    transform st' = transformPrior Examples.big2_far.
Proof.
  destruct big2_far_returns as (st' & E). exists st'. split; [exact E |].
  assert (Hv : tickValid Examples.big2_far) by (vm_compute; tauto).
  assert (Hi : systemInited Examples.big2_far = true) by (vm_compute; reflexivity).
  assert (Hf : (length (cornerPointsSharp Examples.big2_far)
                + length (surfPointsFlat Examples.big2_far) < 10)%nat) by (vm_compute; lia).
  exact (proj1 (proj2 (@process_few_query_points Reference.externals _ _ _ Hv Hi Hf E))).
Defined.

(** X7: cached correspondences.  When a valid tick enters the solver block
    and returns, each of the five index caches has one entry per query
    point: the two corner caches as many as the sharp cloud (after the
    removal of non-finite points), the three surface caches as many as the
    flat cloud. *)
Theorem process_cache_sizes `{Externals} (st st' : LaserOdometry) (r : bool) :
  tickValid st -> systemInited st = true ->
  (10 < length (lastCornerCloud st))%nat -> (100 < length (lastSurfaceCloud st))%nat ->
  process st = Done (st', r) ->
  cornerPointsSharp st' = removeNaNFromPointCloud (cornerPointsSharp st) /\
  surfPointsFlat st' = surfPointsFlat st /\
  length (pointSearchCornerInd1 st') = length (cornerPointsSharp st') /\
  length (pointSearchCornerInd2 st') = length (cornerPointsSharp st') /\
  length (pointSearchSurfInd1 st') = length (surfPointsFlat st') /\
  length (pointSearchSurfInd2 st') = length (surfPointsFlat st') /\
  length (pointSearchSurfInd3 st') = length (surfPointsFlat st').
Proof.
  intros Hv Hi H10 H100 Hp. apply hasNewData_valid in Hv.
  destruct (process_done st st' r Hp)
    as [(Hn & _) | [(_ & Hi' & _) | (_ & _ & _ & [(_ & _ & s & Hs & ->) | (Hsz & _)])]];
    try congruence; [| lia].
  apply solve_frame in Hs as (_ & H1 & H2 & H3 & H4 & H5). simpl.
  rewrite removeNaN_id. repeat split; assumption.
Qed.

Lemma process_cache_sizes_witness :
  exists st',
    @process Reference.externals Examples.big2_far = Done (st', true) /\
    length (pointSearchCornerInd1 st') = 1%nat /\
    length (pointSearchSurfInd3 st') = 1%nat.
Proof.
  destruct big2_far_returns as (st' & E). exists st'. split; [exact E |].
  assert (Hv : tickValid Examples.big2_far) by (vm_compute; tauto).
  assert (Hi : systemInited Examples.big2_far = true) by (vm_compute; reflexivity).
  assert (H10 : (10 < length (lastCornerCloud Examples.big2_far))%nat) by (vm_compute; lia).
  assert (H100 : (100 < length (lastSurfaceCloud Examples.big2_far))%nat) by (vm_compute; lia).
  destruct (@process_cache_sizes Reference.externals _ _ _ Hv Hi H10 H100 E)
    as (Hs & Hf & H1 & _ & _ & _ & H5).
  rewrite H1, H5, Hs, Hf. split; vm_compute; reflexivity.
Defined.

(** X8: [transformToStart] keeps the channel of the point, and it returns
    the coordinates unchanged when the channel has no sweep-time fraction
    (a point at the start of the sweep, or one already de-skewed by
    [transformToEnd]) and when the incremental transform is zero, for any
    libm whose sine is 0 and cosine is 1 at angle zero. *)
Theorem transformToStart_fixed `{Externals} (t : Twist) (p : PointXYZI) :
  (forall a, a == 0 -> ext_sin a == 0 /\ ext_cos a == 1) ->
  intensity p == inject_Z (to_int (intensity p)) \/ twistEq t Twist_default ->
  intensity (transformToStart t p) = intensity p /\
  p_x (transformToStart t p) == p_x p /\
  p_y (transformToStart t p) == p_y p /\
  p_z (transformToStart t p) == p_z p.
Proof.
  intros Htrig Hcase. split; [reflexivity |].
  set (s := 10 * (intensity p - inject_Z (to_int (intensity p)))).
  assert (Hz : s * v_x (pos t) == 0 /\ s * v_y (pos t) == 0 /\ s * v_z (pos t) == 0 /\
               - s * rot_x t == 0 /\ - s * rot_y t == 0 /\ - s * rot_z t == 0).
  { destruct Hcase as [Hs | (Hx & Hy & Hz & Hpx & Hpy & Hpz)].
    - assert (Hs0 : s == 0) by (unfold s; lra).
      repeat split; rewrite Hs0; ring.
    - simpl in *. repeat split;
        rewrite ?Hx, ?Hy, ?Hz, ?Hpx, ?Hpy, ?Hpz; ring. }
  destruct Hz as (Hpx & Hpy & Hpz & Hrx & Hry & Hrz).
  destruct (Htrig _ Hrx) as (Sx & Cx), (Htrig _ Hry) as (Sy & Cy), (Htrig _ Hrz) as (Sz & Cz).
  unfold transformToStart. fold s. cbv zeta.
  unfold rotateZXY, rotY, rotX, rotZ, with_xyz, xyz. simpl.
  rewrite Sx, Cx, Sy, Cy, Sz, Cz, Hpx, Hpy, Hpz.
  repeat split; ring.
Qed.

Lemma transformToStart_fixed_witness :
  p_x (@transformToStart Reference.externals (mkTwist (1 # 10) 0 0 (mkVector3 1 2 3))
         (mkPoint 4 5 6 2)) == 4.
Proof.
  apply (@transformToStart_fixed Reference.externals
           (mkTwist (1 # 10) 0 0 (mkVector3 1 2 3)) (mkPoint 4 5 6 2)).
  - intros a Ha. split; [exact Ha | reflexivity].
  - left. reflexivity.
Defined.

Lemma inject_Z_close (x y : Z) : Qabs (inject_Z x - inject_Z y) < 1 -> x = y.
Proof.
  intros Hc. apply Qabs_Qlt_condition in Hc as (Hl & Hu).
  assert (H1 : inject_Z y < inject_Z (x + 1)).
  { rewrite inject_Z_plus. change (inject_Z 1) with 1. lra. }
  assert (H2 : inject_Z x < inject_Z (y + 1)).
  { rewrite inject_Z_plus. change (inject_Z 1) with 1. lra. }
  rewrite <- Zlt_Qlt in H1, H2. lia.
Qed.

(** X9: the gate compares each stream with the less-flat stream only.  On a
    tick that passes [hasNewData] any two of the six time stamps are
    therefore less than 10 ms apart; and when the stamps are whole numbers,
    as with [typedef int Time] of common.h, the six stamps are equal. *)
Theorem valid_stamps_within_10ms (st : LaserOdometry) :
  hasNewData st = true ->
  (forall a b, In a (stamps st) -> In b (stamps st) -> Qabs (a - b) < 1 # 100) /\
  ((forall a, In a (stamps st) -> exists z, a == inject_Z z) ->
   forall a b, In a (stamps st) -> In b (stamps st) -> a == b).
Proof.
  intros Hn.
  assert (Hclose : forall a b, In a (stamps st) -> In b (stamps st) -> Qabs (a - b) < 1 # 100).
  { apply hasNewData_valid in Hn.
    destruct Hn as (_ & _ & _ & _ & _ & _ & H1 & H2 & H3 & H4 & H5). intros a b Ha Hb.
    apply Qabs_Qlt_condition in H1, H2, H3, H4, H5.
    apply Qabs_Qlt_condition.
    unfold stamps in Ha, Hb. simpl in Ha, Hb.
    destruct Ha as [<- | [<- | [<- | [<- | [<- | [<- | []]]]]]];
      destruct Hb as [<- | [<- | [<- | [<- | [<- | [<- | []]]]]]]; lra. }
  split; [exact Hclose |].
  intros Hint a b Ha Hb.
  destruct (Hint a Ha) as (za & Ea), (Hint b Hb) as (zb & Eb).
  pose proof (Hclose a b Ha Hb) as Hc. rewrite Ea, Eb in Hc |- *.
  rewrite (inject_Z_close za zb); [reflexivity |].
  eapply Qlt_trans; [exact Hc | reflexivity].
Qed.

Lemma valid_stamps_within_10ms_witness :
  hasNewData Examples.tick_spread = true /\
  5 # 1000 <= Qabs (timeCornerPointsSharp Examples.tick_spread
                    - timeImuTrans Examples.tick_spread) /\
  Qabs (timeCornerPointsSharp Examples.tick_spread - timeImuTrans Examples.tick_spread)
    < 1 # 100.
Proof.
  assert (Hn : hasNewData Examples.tick_spread = true) by (vm_compute; reflexivity).
  split; [exact Hn |]. split; [vm_compute; discriminate |].
  apply (proj1 (valid_stamps_within_10ms Examples.tick_spread Hn)).
  - left. reflexivity.
  - do 5 right. left. reflexivity.
Defined.

Lemma dot_zero_r (a b : Vec) : Forall (fun x => x == 0) b -> dot a b == 0.
Proof.
  intros Hb. revert a. induction Hb as [| y b Hy Hb IH]; intros [| x a]; try reflexivity.
  unfold dot in *. simpl. rewrite IH, Hy. ring.
Qed.

Lemma dot_zero_l (a b : Vec) : Forall (fun x => x == 0) a -> dot a b == 0.
Proof.
  intros Ha. revert b. induction Ha as [| x a Hx Ha IH]; intros [| y b]; try reflexivity.
  unfold dot in *. simpl. rewrite IH, Hx. ring.
Qed.

Lemma nth_zero (row : Vec) (c : nat) : Forall (fun x => x == 0) row -> nth c row 0 == 0.
Proof.
  intros Hr. revert c. induction Hr as [| x row Hx Hr IH]; intros [| c]; simpl;
    try reflexivity; [exact Hx | apply IH].
Qed.

Lemma transpose_zero (n : nat) (m : Mat) :
  Forall (Forall (fun x => x == 0)) m -> Forall (Forall (fun x => x == 0)) (transpose n m).
Proof.
  intros Hm. induction n as [| c IH]; simpl; [constructor |].
  apply Forall_app. split; [exact IH |]. constructor; [| constructor].
  apply Forall_map. eapply Forall_impl; [exact Hm |]. intros row Hrow. now apply nth_zero.
Qed.

(** A product with a zero matrix on the right is zero. *)
Lemma mmul_zero_r (cols : nat) (a z : Mat) :
  Forall (Forall (fun x => x == 0)) z -> Forall (Forall (fun x => x == 0)) (mmul cols a z).
Proof.
  intros Hz. unfold mmul. apply Forall_map, Forall_forall. intros row _.
  apply Forall_map. eapply Forall_impl; [apply (transpose_zero cols z Hz) |].
  intros col Hcol. now apply dot_zero_r.
Qed.

Lemma mvmul_zero_rows (m : Mat) (v : Vec) :
  Forall (Forall (fun x => x == 0)) m -> Forall (fun x => x == 0) (mvmul m v).
Proof.
  intros Hm. unfold mvmul. apply Forall_map. eapply Forall_impl; [exact Hm |].
  intros row Hrow. now apply dot_zero_l.
Qed.

Lemma zeros_zero (row : Vec) : Forall (fun x => x == 0) (map (fun _ => 0) row).
Proof. apply Forall_map, Forall_forall. intros x _. reflexivity. Qed.

Lemma zeroRows_zero (m : Mat) :
  length m = 6%nat ->
  Forall (Forall (fun x => x == 0))
         (zeroRow 0 (zeroRow 1 (zeroRow 2 (zeroRow 3 (zeroRow 4 (zeroRow 5 m)))))).
Proof.
  intros Hl.
  destruct m as [| r0 [| r1 [| r2 [| r3 [| r4 [| r5 [| r6 m]]]]]]]; try discriminate.
  unfold zeroRow. simpl. repeat constructor; apply zeros_zero.
Qed.

(** X10: the degeneracy analysis on the eigenvalues as Eigen returns them (in
    increasing order).  If the largest is at least 10 the system is not
    flagged degenerate and every update is applied as solved.  If the
    largest is below 10 the system is flagged degenerate, all six rows of
    the 6x6 eigenvector matrix are zeroed, and every solved update is
    projected to zero in each component. *)
Theorem degeneracy_on_increasing_eigenvalues `{Externals}
    (matE : Vec) (matV : Mat) (matX : Vec) :
  increasing6 matE -> length matV = 6%nat ->
  (10 <= vget matE 5 ->
     fst (degeneracy matE matV) = false /\
     projectUpdate (fst (degeneracy matE matV)) (snd (degeneracy matE matV)) matX = matX) /\
  (vget matE 5 < 10 ->
     fst (degeneracy matE matV) = true /\
     Forall (fun x => x == 0)
            (projectUpdate (fst (degeneracy matE matV)) (snd (degeneracy matE matV)) matX)).
Proof.
  intros Hinc Hlen. unfold degeneracy.
  rewrite (degeneracyScan_all_or_nothing matE matV Hinc).
  split.
  - intros Hge. apply Qltb_ge in Hge. rewrite Hge. split; reflexivity.
  - intros Hlt. apply Qltb_lt in Hlt. rewrite Hlt. split; [reflexivity |].
    cbn [fst snd projectUpdate]. apply mvmul_zero_rows, mmul_zero_r, zeroRows_zero, Hlen.
Qed.

Lemma degeneracy_on_increasing_eigenvalues_witness :
  fst (@degeneracy Reference.externals [1; 2; 3; 4; 5; 6] (identity 6)) = true /\
  Forall (fun x => x == 0)
         (projectUpdate (fst (@degeneracy Reference.externals [1; 2; 3; 4; 5; 6] (identity 6)))
                        (snd (@degeneracy Reference.externals [1; 2; 3; 4; 5; 6] (identity 6)))
                        [1; 1; 1; 1; 1; 1]).
Proof.
  apply (@degeneracy_on_increasing_eigenvalues Reference.externals
           [1; 2; 3; 4; 5; 6] (identity 6) [1; 1; 1; 1; 1; 1]).
  - unfold increasing6. vm_compute. repeat split; discriminate.
  - reflexivity.
  - vm_compute. reflexivity.
Defined.

Lemma Qle_ring_window (a b : Z) : inject_Z a <= inject_Z b + (5 # 2) <-> (a <= b + 2)%Z.
Proof. unfold Qle, Qplus, inject_Z. simpl. lia. Qed.

Lemma Qlt_ring_window (a b : Z) : inject_Z a < inject_Z b - (5 # 2) <-> (a < b - 2)%Z.
Proof. unfold Qlt, Qminus, Qplus, Qopp, inject_Z. simpl. lia. Qed.

Section SearchFacts.
Context `{Externals}.

Lemma cornerForward_ok (cloud : Cloud) (p : PointXYZI) (c scan : Z) (fuel : nat) :
  forall (j : Z) (acc r : Q * Z),
    (c < j)%Z -> secondOK cloud p c scan acc ->
    cornerForward cloud p scan fuel j acc = Done r -> secondOK cloud p c scan r.
Proof.
  induction fuel as [| fuel IH]; intros j acc r Hj Hacc Hr; simpl in Hr.
  - now injection Hr as <-.
  - apply bind_inv in Hr as (pj & Hpj & Hr).
    destruct (Qgtb _ _) eqn:Ebreak; [now injection Hr as <- |].
    apply Qltb_ge, Qle_ring_window in Ebreak.
    apply (IH (j + 1)%Z _ r ltac:(lia)) in Hr; [exact Hr |].
    destruct (to_int (intensity pj) >? scan)%Z eqn:Ering; [| exact Hacc].
    destruct (Qltb (calcSquaredDiff pj p) (fst acc)) eqn:Ed; [| exact Hacc].
    apply Qltb_lt in Ed. right. exists pj. simpl.
    split; [exact Hpj |]. split; [reflexivity |]. split.
    + destruct Hacc as [-> | (pm & _ & _ & Hlt & _)]; simpl in *; lra.
    + left. apply Z.gtb_lt in Ering. unfold scanRing. lia.
Qed.

Lemma cornerBackward_ok (cloud : Cloud) (p : PointXYZI) (c scan : Z) (n : nat) :
  forall (acc r : Q * Z),
    (Z.of_nat n <= c)%Z -> secondOK cloud p c scan acc ->
    cornerBackward cloud p scan n acc = Done r -> secondOK cloud p c scan r.
Proof.
  induction n as [| n IH]; intros acc r Hn Hacc Hr; simpl in Hr.
  - now injection Hr as <-.
  - apply bind_inv in Hr as (pj & Hpj & Hr).
    destruct (Qltb _ _) eqn:Ebreak; [now injection Hr as <- |].
    apply Qltb_ge in Ebreak.
    assert (Hwin : (scan - 2 <= to_int (intensity pj))%Z).
    { destruct (Z_lt_le_dec (to_int (intensity pj)) (scan - 2)) as [Hlt | Hle]; [| exact Hle].
      apply Qlt_ring_window in Hlt. lra. }
    apply (IH _ r ltac:(lia)) in Hr; [exact Hr |].
    destruct (to_int (intensity pj) <? scan)%Z eqn:Ering; [| exact Hacc].
    destruct (Qltb (calcSquaredDiff pj p) (fst acc)) eqn:Ed; [| exact Hacc].
    apply Qltb_lt in Ed. right. exists pj. simpl.
    split; [exact Hpj |]. split; [reflexivity |]. split.
    + destruct Hacc as [-> | (pm & _ & _ & Hlt & _)]; simpl in *; lra.
    + right. apply Z.ltb_lt in Ering. unfold scanRing. lia.
Qed.

End SearchFacts.

(** X11: the edge-line correspondence of a sharp point.  When the corner
    search returns, either the nearest neighbour is 5 m or more away and
    both indices are -1, or the first index is the nearest neighbour, a
    point of the cloud, and the second is -1 or a different point of the
    cloud, less than 5 m from the search position, on another scan ring at
    most two rings away: on a higher ring if it is stored after the nearest
    neighbour, on a lower ring if it is stored before it. *)
Theorem cornerSearch_second_neighbour `{Externals}
    (kd : KdTreeFLANN) (cloud : Cloud) (p : PointXYZI) (num : nat) (c m : Z) :
  (Z.of_nat (length cloud) < size_t_max)%Z ->
  cornerSearch kd cloud p num = Done (c, m) ->
  (25 <= snd (nearestKSearch kd p) /\ c = (-1)%Z /\ m = (-1)%Z) \/
  (snd (nearestKSearch kd p) < 25 /\ c = fst (nearestKSearch kd p) /\
   exists pc, at_ cloud c = Done pc /\
     (m = (-1)%Z \/
      exists pm, at_ cloud m = Done pm /\ m <> c /\ calcSquaredDiff pm p < 25 /\
        ((c < m)%Z /\ (scanRing pc < scanRing pm)%Z /\
         (to_size_t (scanRing pm) <= scanRing pc + 2)%Z \/
         (m < c)%Z /\ (scanRing pc - 2 <= scanRing pm < scanRing pc)%Z))).
Proof.
  intros Hsz. unfold cornerSearch.
  destruct (nearestKSearch kd p) as [ind sq]. simpl.
  destruct (Qltb sq 25) eqn:Esq.
  - apply Qltb_lt in Esq. intros Hs. right.
    apply bind_inv in Hs as (pc & Hpc & Hs).
    apply bind_inv in Hs as (fw & Hfw & Hs).
    apply bind_inv in Hs as (bw & Hbw & Hs). injection Hs as <- <-.
    split; [exact Esq |]. split; [reflexivity |]. exists pc. split; [exact Hpc |].
    assert (Hrange : (0 <= ind < Z.of_nat (length cloud))%Z).
    { unfold at_ in Hpc. destruct (ind <? 0)%Z eqn:E0; [discriminate |].
      apply Z.ltb_ge in E0. destruct (cloud !! Z.to_nat ind) eqn:El; [| discriminate].
      apply lookup_lt_Some in El. lia. }
    assert (Ej : to_size_t (ind + 1) = (ind + 1)%Z)
      by (unfold to_size_t; apply Z.mod_small; lia).
    rewrite Ej in Hfw.
    apply (cornerForward_ok cloud p ind (to_int (intensity pc))) in Hfw;
      [| lia | left; reflexivity].
    apply (cornerBackward_ok cloud p ind (to_int (intensity pc))) in Hbw; [| lia | exact Hfw].
    destruct Hbw as [-> | (pm & Hpm & Hd & Hlt & Hside)]; [left; reflexivity |].
    right. exists pm. split; [exact Hpm |].
    split; [fold (scanRing pc) in Hside; lia |].
    split; [now rewrite <- Hd |]. exact Hside.
  - apply Qltb_ge in Esq. intros Hs. injection Hs as <- <-. left. repeat split. exact Esq.
Qed.

Lemma cornerSearch_second_neighbour_witness :
  exists pm,
    at_ [mkPoint 1 0 0 0; mkPoint 2 0 0 1] 1 = Done pm /\ scanRing pm = 1%Z.
Proof.
  destruct (@cornerSearch_second_neighbour Reference.externals
              (Some [mkPoint 1 0 0 0; mkPoint 2 0 0 1]) [mkPoint 1 0 0 0; mkPoint 2 0 0 1]
              PointXYZI_default 2 0%Z 1%Z
              ltac:(vm_compute; reflexivity) ltac:(vm_compute; reflexivity))
    as [(_ & _ & Hm) | (_ & _ & pc & _ & [Hm | (pm & Hpm & _)])]; try discriminate.
  exists pm. split; [exact Hpm |]. vm_compute in Hpm. injection Hpm as <-. reflexivity.
Defined.

Section SurfSearchFacts.
Context `{Externals}.

Lemma surfForward_ok (cloud : Cloud) (p : PointXYZI) (c scan : Z) (fuel : nat) :
  forall (j : Z) (acc r : SurfAcc),
    (c < j)%Z -> surfOK cloud p c scan acc ->
    surfForward cloud p scan fuel j acc = Done r -> surfOK cloud p c scan r.
Proof.
  induction fuel as [| fuel IH]; intros j acc r Hj Hacc Hr; simpl in Hr.
  - now injection Hr as <-.
  - apply bind_inv in Hr as (pj & Hpj & Hr).
    destruct (Qgtb _ _) eqn:Ebreak; [now injection Hr as <- |].
    apply Qltb_ge, Qle_ring_window in Ebreak.
    destruct acc as [[[d2 i2] d3] i3]. destruct Hacc as (H2 & H3). simpl in H2, H3.
    apply (IH (j + 1)%Z _ r ltac:(lia)) in Hr; [exact Hr |].
    destruct (to_int (intensity pj) <=? scan)%Z eqn:Ering.
    + destruct (Qltb (calcSquaredDiff pj p) d2) eqn:Ed; [| split; assumption].
      apply Qltb_lt in Ed. split; [| exact H3]. right. exists pj. simpl.
      split; [exact Hpj |]. split; [reflexivity |]. split.
      * destruct H2 as [(-> & _) | (pm & _ & _ & Hlt & _)]; lra.
      * left. apply Z.leb_le in Ering. unfold scanRing. lia.
    + destruct (Qltb (calcSquaredDiff pj p) d3) eqn:Ed; [| split; assumption].
      apply Qltb_lt in Ed. split; [exact H2 |]. right. exists pj. simpl.
      split; [exact Hpj |]. split; [reflexivity |]. split.
      * destruct H3 as [(-> & _) | (pm & _ & _ & Hlt & _)]; lra.
      * left. apply Z.leb_gt in Ering. unfold scanRing. lia.
Qed.

Lemma surfBackward_ok (cloud : Cloud) (p : PointXYZI) (c scan : Z) (n : nat) :
  forall (acc r : SurfAcc),
    (Z.of_nat n <= c)%Z -> surfOK cloud p c scan acc ->
    surfBackward cloud p scan n acc = Done r -> surfOK cloud p c scan r.
Proof.
  induction n as [| n IH]; intros acc r Hn Hacc Hr; simpl in Hr.
  - now injection Hr as <-.
  - apply bind_inv in Hr as (pj & Hpj & Hr).
    destruct (Qltb _ _) eqn:Ebreak; [now injection Hr as <- |].
    apply Qltb_ge in Ebreak.
    assert (Hwin : (scan - 2 <= to_int (intensity pj))%Z).
    { destruct (Z_lt_le_dec (to_int (intensity pj)) (scan - 2)) as [Hlt | Hle]; [| exact Hle].
      apply Qlt_ring_window in Hlt. lra. }
    destruct acc as [[[d2 i2] d3] i3]. destruct Hacc as (H2 & H3). simpl in H2, H3.
    apply (IH _ r ltac:(lia)) in Hr; [exact Hr |].
    destruct (scan <=? to_int (intensity pj))%Z eqn:Ering.
    + destruct (Qltb (calcSquaredDiff pj p) d2) eqn:Ed; [| split; assumption].
      apply Qltb_lt in Ed. split; [| exact H3]. right. exists pj. simpl.
      split; [exact Hpj |]. split; [reflexivity |]. split.
      * destruct H2 as [(-> & _) | (pm & _ & _ & Hlt & _)]; lra.
      * right. apply Z.leb_le in Ering. unfold scanRing. lia.
    + destruct (Qltb (calcSquaredDiff pj p) d3) eqn:Ed; [| split; assumption].
      apply Qltb_lt in Ed. split; [exact H2 |]. right. exists pj. simpl.
      split; [exact Hpj |]. split; [reflexivity |]. split.
      * destruct H3 as [(-> & _) | (pm & _ & _ & Hlt & _)]; lra.
      * right. apply Z.leb_gt in Ering. unfold scanRing. lia.
Qed.

End SurfSearchFacts.

(** X12: the plane correspondence of a flat point.  When the surface search
    returns three indices that are not negative, they are three different
    points of the cloud; the second and the third are less than 5 m from
    the search position; the third lies on another ring than the closest, at
    most two rings away; and in a cloud stored ring by ring the second lies
    on the ring of the closest. *)
Theorem surfSearch_plane_points `{Externals}
    (kd : KdTreeFLANN) (cloud : Cloud) (p : PointXYZI) (num : nat) (c i2 i3 : Z) :
  (Z.of_nat (length cloud) < size_t_max)%Z ->
  surfSearch kd cloud p num = Done (c, i2, i3) ->
  (0 <= i2)%Z -> (0 <= i3)%Z ->
  exists pc p2 p3,
    at_ cloud c = Done pc /\ at_ cloud i2 = Done p2 /\ at_ cloud i3 = Done p3 /\
    c <> i2 /\ c <> i3 /\ i2 <> i3 /\
    calcSquaredDiff p2 p < 25 /\ calcSquaredDiff p3 p < 25 /\
    scanRing p3 <> scanRing pc /\
    (scanRing pc - 2 <= scanRing p3 <= scanRing pc + 2)%Z /\
    (ringSorted cloud -> scanRing p2 = scanRing pc).
Proof.
  intros Hsz. unfold surfSearch.
  destruct (nearestKSearch kd p) as [ind sq]. simpl.
  destruct (Qltb sq 25) eqn:Esq; [| intros [= <- <- <-]; lia].
  intros Hs H2 H3.
  apply bind_inv in Hs as (pc & Hpc & Hs).
  apply bind_inv in Hs as (fw & Hfw & Hs).
  apply bind_inv in Hs as ([[[d2 j2] d3] j3] & Hbw & Hs). injection Hs as -> -> ->.
  assert (Hrange : (0 <= c < Z.of_nat (length cloud))%Z).
  { unfold at_ in Hpc. destruct (c <? 0)%Z eqn:E0; [discriminate |].
    apply Z.ltb_ge in E0. destruct (cloud !! Z.to_nat c) eqn:El; [| discriminate].
    apply lookup_lt_Some in El. lia. }
  assert (Ej : to_size_t (c + 1) = (c + 1)%Z)
    by (unfold to_size_t; apply Z.mod_small; lia).
  rewrite Ej in Hfw.
  apply (surfForward_ok cloud p c (to_int (intensity pc))) in Hfw;
    [| lia | split; left; split; reflexivity].
  apply (surfBackward_ok cloud p c (to_int (intensity pc))) in Hbw; [| lia | exact Hfw].
  destruct Hbw as (S2 & S3). simpl in S2, S3. fold (scanRing pc) in S2, S3.
  destruct S2 as [(_ & ->) | (p2 & Hp2 & Hd2 & Hlt2 & Hside2)]; [lia |].
  destruct S3 as [(_ & ->) | (p3 & Hp3 & Hd3 & Hlt3 & Hside3)]; [lia |].
  exists pc, p2, p3.
  split; [exact Hpc |]. split; [exact Hp2 |]. split; [exact Hp3 |].
  split; [lia |]. split; [lia |]. split.
  { intros ->. rewrite Hp2 in Hp3. injection Hp3 as ->. lia. }
  split; [now rewrite <- Hd2 |]. split; [now rewrite <- Hd3 |].
  split; [lia |]. split; [lia |].
  intros Hsorted. destruct Hside2 as [(Hpos & Hr) | (Hpos & Hr)].
  - pose proof (Hsorted c i2 pc p2 ltac:(lia) Hpc Hp2). lia.
  - pose proof (Hsorted i2 c p2 pc ltac:(lia) Hp2 Hpc). lia.
Qed.

Lemma surfSearch_plane_points_witness :
  exists pc p2 p3,
    at_ [mkPoint 1 0 0 0; mkPoint 2 0 0 0; mkPoint 2 1 0 1] 0 = Done pc /\
    at_ [mkPoint 1 0 0 0; mkPoint 2 0 0 0; mkPoint 2 1 0 1] 1 = Done p2 /\
    at_ [mkPoint 1 0 0 0; mkPoint 2 0 0 0; mkPoint 2 1 0 1] 2 = Done p3 /\
    scanRing p3 <> scanRing pc.
Proof.
  destruct (@surfSearch_plane_points Reference.externals
              (Some [mkPoint 1 0 0 0; mkPoint 2 0 0 0; mkPoint 2 1 0 1])
              [mkPoint 1 0 0 0; mkPoint 2 0 0 0; mkPoint 2 1 0 1]
              PointXYZI_default 3 0%Z 1%Z 2%Z
              ltac:(vm_compute; reflexivity) ltac:(vm_compute; reflexivity)
              ltac:(lia) ltac:(lia))
    as (pc & p2 & p3 & Hc & H2 & H3 & _ & _ & _ & _ & _ & Hr & _).
  exists pc, p2, p3. repeat split; assumption.
Defined.

Lemma gate_nonzero (s d : Q) : Qgtb s (1 # 10) && Qneqb d 0 = true -> ~ s * d == 0.
Proof.
  intros Hg. apply andb_true_iff in Hg as (Hs & Hd).
  apply Qltb_lt in Hs. unfold Qneqb in Hd. apply negb_true_iff in Hd.
  intros Hz. apply Qmult_integral in Hz as [Hz | Hz]; [lra |].
  apply Qeq_bool_iff in Hz. congruence.
Qed.

Section Selection.
Context `{Externals}.

Lemma cornerResidual_nonzero (it : nat) (p t1 t2 c : PointXYZI) :
  cornerResidual it p t1 t2 = Done (Some c) -> ~ intensity c == 0.
Proof.
  unfold cornerResidual. cbv zeta.
  destruct (Qeq_bool _ 0); [destruct (5 <=? it)%nat; discriminate |].
  match goal with |- context [Qgtb ?s (1 # 10) && Qneqb ?d 0] =>
    destruct (Qgtb s (1 # 10) && Qneqb d 0) eqn:E end; [| discriminate].
  intros [= <-]. simpl. now apply gate_nonzero.
Qed.

Lemma surfResidual_nonzero (it : nat) (p t1 t2 t3 c : PointXYZI) :
  surfResidual it p t1 t2 t3 = Done (Some c) -> ~ intensity c == 0.
Proof.
  unfold surfResidual. cbv zeta.
  destruct (Qeq_bool _ 0); [destruct (5 <=? it)%nat; discriminate |].
  destruct (_ && Qeq_bool _ 0); [discriminate |].
  match goal with |- context [Qgtb ?s (1 # 10) && Qneqb ?d 0] =>
    destruct (Qgtb s (1 # 10) && Qneqb d 0) eqn:E end; [| discriminate].
  intros [= <-]. simpl. now apply gate_nonzero.
Qed.

Lemma push_selectionOK (s : SolverState) (q c : PointXYZI) :
  selectionOK s -> ~ intensity c == 0 -> selectionOK (so_push s q c).
Proof.
  intros (Hl & Hf) Hc. unfold selectionOK. simpl. rewrite !length_app, Hl.
  split; [reflexivity |]. apply Forall_app. split; [exact Hf |]. now constructor.
Qed.

Lemma cornerPoint_selection (kd : KdTreeFLANN) (sharp : Cloud) (it : nat) (p : PointXYZI)
    (s s' : SolverState) (i : nat) :
  selectionOK s -> cornerPoint kd sharp it p s i = Done s' -> selectionOK s'.
Proof.
  unfold cornerPoint. intros Hs Hc.
  apply bind_inv in Hc as (s1 & H1 & Hc).
  assert (S1 : selectionOK s1).
  { destruct (it mod 5 =? 0)%nat.
    - apply bind_inv in H1 as (r & _ & H1). injection H1 as <-. exact Hs.
    - injection H1 as <-. exact Hs. }
  apply bind_inv in Hc as (k2 & _ & Hc).
  destruct (0 <=? k2)%Z; [| injection Hc as <-; exact S1].
  apply bind_inv in Hc as (k1 & _ & Hc).
  apply bind_inv in Hc as (t1 & _ & Hc).
  apply bind_inv in Hc as (t2 & _ & Hc).
  apply bind_inv in Hc as (rc & Er & Hc).
  destruct rc as [c |]; [| injection Hc as <-; exact S1].
  apply bind_inv in Hc as (q & _ & Hc). injection Hc as <-.
  apply push_selectionOK; [exact S1 | eapply cornerResidual_nonzero; exact Er].
Qed.

Lemma surfPoint_selection (kd : KdTreeFLANN) (cloud flat : Cloud) (it : nat) (p : PointXYZI)
    (s s' : SolverState) (i : nat) :
  selectionOK s -> surfPoint kd cloud flat it p s i = Done s' -> selectionOK s'.
Proof.
  unfold surfPoint. intros Hs Hc.
  apply bind_inv in Hc as (s1 & H1 & Hc).
  assert (S1 : selectionOK s1).
  { destruct (it mod 5 =? 0)%nat.
    - apply bind_inv in H1 as ([[i1 i2] i3] & _ & H1). injection H1 as <-. exact Hs.
    - injection H1 as <-. exact Hs. }
  apply bind_inv in Hc as (k2 & _ & Hc).
  destruct (0 <=? k2)%Z; [| injection Hc as <-; exact S1].
  apply bind_inv in Hc as (k3 & _ & Hc).
  destruct (0 <=? k3)%Z; [| injection Hc as <-; exact S1].
  apply bind_inv in Hc as (k1 & _ & Hc).
  apply bind_inv in Hc as (t1 & _ & Hc).
  apply bind_inv in Hc as (t2 & _ & Hc).
  apply bind_inv in Hc as (t3 & _ & Hc).
  apply bind_inv in Hc as (rc & Er & Hc).
  destruct rc as [c |]; [| injection Hc as <-; exact S1].
  apply bind_inv in Hc as (q & _ & Hc). injection Hc as <-.
  apply push_selectionOK; [exact S1 | eapply surfResidual_nonzero; exact Er].
Qed.

(** From iteration 5 on the weight of a plane correspondence is divided by
    [sqrt(calcPointDistance(pointSel))]; where that is zero the
    correspondence is dropped. *)
Lemma surfResidual_late (it : nat) (p t1 t2 t3 : PointXYZI) (r : option PointXYZI) :
  (5 <= it)%nat -> ext_sqrt (calcPointDistance p) == 0 ->
  surfResidual it p t1 t2 t3 = Done r -> r = None.
Proof.
  intros Hit Hd. apply Nat.leb_le in Hit. apply Qeq_bool_iff in Hd.
  unfold surfResidual. cbv zeta. rewrite Hit, Hd. cbn [andb]. clear Hd.
  destruct (Qeq_bool _ 0); intros E; congruence.
Qed.

Lemma surfPoint_late (kd : KdTreeFLANN) (cloud flat : Cloud) (it : nat) (p : PointXYZI)
    (s s' : SolverState) (i : nat) :
  (5 <= it)%nat -> ext_sqrt (calcPointDistance p) == 0 ->
  surfPoint kd cloud flat it p s i = Done s' ->
  so_laserCloudOri s' = so_laserCloudOri s /\ so_coeffSel s' = so_coeffSel s.
Proof.
  unfold surfPoint. intros Hit Hd Hc.
  apply bind_inv in Hc as (s1 & H1 & Hc).
  assert (S1 : so_laserCloudOri s1 = so_laserCloudOri s /\ so_coeffSel s1 = so_coeffSel s).
  { destruct (it mod 5 =? 0)%nat.
    - apply bind_inv in H1 as ([[i1 i2] i3] & _ & H1). injection H1 as <-. split; reflexivity.
    - injection H1 as <-. split; reflexivity. }
  apply bind_inv in Hc as (k2 & _ & Hc).
  destruct (0 <=? k2)%Z; [| injection Hc as <-; exact S1].
  apply bind_inv in Hc as (k3 & _ & Hc).
  destruct (0 <=? k3)%Z; [| injection Hc as <-; exact S1].
  apply bind_inv in Hc as (k1 & _ & Hc).
  apply bind_inv in Hc as (t1 & _ & Hc).
  apply bind_inv in Hc as (t2 & _ & Hc).
  apply bind_inv in Hc as (t3 & _ & Hc).
  apply bind_inv in Hc as (rc & Er & Hc).
  apply (surfResidual_late _ _ _ _ _ _ Hit Hd) in Er. subst rc.
  injection Hc as <-. exact S1.
Qed.

End Selection.

(** X13: the selection of an iteration.  When an iteration returns, the
    selected points and the selected coefficients are paired one to one,
    there is at most one pair per sharp and per flat query point, and no
    selected coefficient has a zero residual.  From iteration 5 on no flat
    point is selected at all, for a libm in which the square root of the
    norm of the origin is 0: the search position is the default-constructed
    [pointSel], so the weight of every plane correspondence is divided by
    zero and fails the test [s > 0.1]. *)
Theorem iteration_selection `{Externals} (st : LaserOdometry) (sharp : Cloud) (it : nat)
    (s s' : SolverState) :
  iteration st sharp it s = Done s' ->
  length (so_laserCloudOri s') = length (so_coeffSel s') /\
  (length (so_laserCloudOri s') <= length sharp + length (surfPointsFlat st))%nat /\
  Forall (fun c => ~ intensity c == 0) (so_coeffSel s') /\
  ((5 <= it)%nat -> ext_sqrt (calcPointDistance PointXYZI_default) == 0 ->
   (length (so_laserCloudOri s') <= length sharp)%nat).
Proof.
  intros Hi.
  assert (Hn : (length (so_laserCloudOri s') <= length sharp + length (surfPointsFlat st))%nat).
  { destruct (iteration_shape st sharp it s s' Hi) as (x & (_&_&_&_&_&_&_&_&_&_&Ho) & ->).
    destruct (updateStep_keeps st it x) as (_ & _ & _ & _ & _ & _ & Ko & _).
    rewrite Ko. exact Ho. }
  unfold iteration in Hi.
  apply bind_inv in Hi as (a & Ha & Hi). apply bind_inv in Hi as (b & Hb & Hi).
  injection Hi as <-.
  assert (Sa : selectionOK a).
  { apply (for_each_inv (fun _ y => selectionOK y)) in Ha; [exact Ha | |].
    - split; [reflexivity | constructor].
    - intros i y z _ Hy Hz. eapply cornerPoint_selection; eassumption. }
  assert (Sb : selectionOK b).
  { apply (for_each_inv (fun _ y => selectionOK y)) in Hb; [exact Hb | exact Sa |].
    intros i y z _ Hy Hz. eapply surfPoint_selection; eassumption. }
  destruct (updateStep_keeps st it b) as (_ & _ & _ & _ & _ & _ & Ko & Kc).
  destruct Sb as (Sl & Sf). split; [| split; [exact Hn | split]].
  - now rewrite Ko, Kc.
  - now rewrite Kc.
  - intros Hit Hd. rewrite Ko.
    apply (for_each_inv (fun k x => frameN k (so_clear s) x) _ _ _ _ (frameN_refl _)) in Ha.
    + destruct Ha as (_&_&_&_&_&_&_&_&_&_&Oa). simpl in Oa.
      apply (for_each_inv (fun _ y => so_laserCloudOri y = so_laserCloudOri a)) in Hb.
      * rewrite Hb. exact Oa.
      * reflexivity.
      * intros i y z _ Hy Hz.
        apply (surfPoint_late _ _ _ _ _ _ _ _ Hit Hd) in Hz as (-> & _). exact Hy.
    + intros i x y _ Hx Hy. eapply frameN_step; [exact Hx |]. eapply cornerPoint_frame; exact Hy.
Qed.

Lemma iteration_selection_witness :
  (exists s',
     @iteration Reference.externals (reset Examples.tick2_plane) [mkPoint 5 5 5 0] 1
        Examples.cached_both = Done s' /\
     length (so_coeffSel s') = 3%nat /\
     Forall (fun c => ~ intensity c == 0) (so_coeffSel s')) /\
  (exists s',
     @iteration Reference.externals (reset Examples.tick2_plane) [] 6
        Examples.cached_both = Done s' /\
     (length (so_laserCloudOri s') <= 0)%nat).
Proof.
  split.
  - eexists. split; [vm_compute; reflexivity |].
    split; [reflexivity |].
    refine (proj1 (proj2 (proj2 (@iteration_selection Reference.externals
                                   (reset Examples.tick2_plane) [mkPoint 5 5 5 0] 1
                                   Examples.cached_both _ _)))).
    vm_compute. reflexivity.
  - eexists. split; [vm_compute; reflexivity |].
    refine (proj2 (proj2 (proj2 (@iteration_selection Reference.externals
                                   (reset Examples.tick2_plane) [] 6
                                   Examples.cached_both _ _))) _ _).
    + vm_compute. reflexivity.
    + lia.
    + vm_compute. reflexivity.
Defined.

(** X14: in a search iteration a query point whose nearest neighbour is
    reported 5 m or more away gets no correspondence: its cached indices
    become -1 and nothing is selected for it, in the corner pass and in the
    surface pass alike. *)
Theorem no_correspondence_beyond_5m `{Externals}
    (kdc kds : KdTreeFLANN) (sharp cloud flat : Cloud) (it i : nat) (p : PointXYZI)
    (s : SolverState) :
  (it mod 5 = 0)%nat ->
  (i < length (so_cornerInd1 s))%nat -> (i < length (so_cornerInd2 s))%nat ->
  (i < length (so_surfInd1 s))%nat -> (i < length (so_surfInd2 s))%nat ->
  (i < length (so_surfInd3 s))%nat ->
  25 <= snd (nearestKSearch kdc p) -> 25 <= snd (nearestKSearch kds p) ->
  (exists s', cornerPoint kdc sharp it p s i = Done s' /\
              so_cornerInd1 s' !! i = Some (-1)%Z /\ so_cornerInd2 s' !! i = Some (-1)%Z /\
              so_laserCloudOri s' = so_laserCloudOri s /\ so_coeffSel s' = so_coeffSel s) /\
  (exists s', surfPoint kds cloud flat it p s i = Done s' /\
              so_surfInd1 s' !! i = Some (-1)%Z /\ so_surfInd2 s' !! i = Some (-1)%Z /\
              so_surfInd3 s' !! i = Some (-1)%Z /\
              so_laserCloudOri s' = so_laserCloudOri s /\ so_coeffSel s' = so_coeffSel s).
Proof.
  intros Hit H1 H2 H3 H4 H5 Hc Hs. apply Nat.eqb_eq in Hit.
  apply Qltb_ge in Hc, Hs. split.
  - unfold cornerPoint, cornerSearch. rewrite Hit.
    destruct (nearestKSearch kdc p) as [ind sq]. simpl in Hc. rewrite Hc. simpl.
    unfold ind_at. rewrite !list_lookup_insert_eq by assumption. simpl.
    eexists. split; [reflexivity |]. simpl.
    rewrite !list_lookup_insert_eq by assumption. repeat split.
  - unfold surfPoint, surfSearch. rewrite Hit.
    destruct (nearestKSearch kds p) as [ind sq]. simpl in Hs. rewrite Hs. simpl.
    unfold ind_at. rewrite !list_lookup_insert_eq by assumption. simpl.
    eexists. split; [reflexivity |]. simpl.
    rewrite !list_lookup_insert_eq by assumption. repeat split.
Qed.

Lemma no_correspondence_beyond_5m_witness :
  exists s',
    @cornerPoint Reference.externals (Some [mkPoint 9 0 0 0]) [mkPoint 1 0 0 0] 0
       PointXYZI_default
       (mkSolver Twist_default [mkPoint 9 0 0 0] [0%Z] [0%Z] [0%Z] [0%Z] [0%Z] [] [] false [] false)
       0 = Done s' /\
    so_cornerInd1 s' !! 0%nat = Some (-1)%Z.
Proof.
  destruct (@no_correspondence_beyond_5m Reference.externals
              (Some [mkPoint 9 0 0 0]) (Some [mkPoint 9 0 0 0])
              [mkPoint 1 0 0 0] [mkPoint 9 0 0 0] [] 0 0 PointXYZI_default
              (mkSolver Twist_default [mkPoint 9 0 0 0] [0%Z] [0%Z] [0%Z] [0%Z] [0%Z] [] []
                        false [] false))
    as ((s' & Hs & H1 & _) & _);
    try (simpl; lia); try reflexivity; try (vm_compute; discriminate).
  exists s'. split; assumption.
Defined.

(** X16: [generateRegisteredCloud] works on the full-resolution cloud alone.
    It keeps the number of its points and their scan rings, leaves the
    poses, the frame count, the fresh-data gate and the previous-sweep
    clouds and indices as they are, and, since the frame count stays, a
    repeated call in the same tick returns the same value. *)
Theorem generateRegisteredCloud_only_full_cloud `{Externals}
    (st : LaserOdometry) (rc rc' : Cloud) :
  let st' := fst (fst (generateRegisteredCloud st rc)) in
  length (laserCloudFullRes st') = length (laserCloudFullRes st) /\
  map scanRing (laserCloudFullRes st') = map scanRing (laserCloudFullRes st) /\
  transform st' = transform st /\ transformSum st' = transformSum st /\
  frameCount st' = frameCount st /\ systemInited st' = systemInited st /\
  hasNewData st' = hasNewData st /\
  lastCornerCloud st' = lastCornerCloud st /\ lastSurfaceCloud st' = lastSurfaceCloud st /\
  lastCornerKDTree st' = lastCornerKDTree st /\ lastSurfaceKDTree st' = lastSurfaceKDTree st /\
  snd (generateRegisteredCloud st' rc') = snd (generateRegisteredCloud st rc).
Proof.
  cbv zeta. unfold generateRegisteredCloud.
  destruct (_ || _) eqn:E; simpl.
  - rewrite E. unfold transformToEnd at 1. rewrite length_map, transformToEnd_rings.
    repeat split.
  - rewrite E. repeat split.
Qed.

(** X17: the searches stay inside the scanned cloud when their forward bound
    does: for a cloud of fewer than 2^64 points, a nearest neighbour inside
    it and a number of query points that is at most its size, the corner
    search and the surface search both return. *)
Theorem searches_stay_in_cloud `{Externals}
    (kd : KdTreeFLANN) (cloud : Cloud) (p : PointXYZI) (num : nat) :
  (Z.of_nat (length cloud) < size_t_max)%Z ->
  (0 <= fst (nearestKSearch kd p) < Z.of_nat (length cloud))%Z ->
  (num <= length cloud)%nat ->
  (exists r, cornerSearch kd cloud p num = Done r) /\
  (exists r, surfSearch kd cloud p num = Done r).
Proof.
  intros Hsz Hnn Hnum. split; [now apply cornerSearch_safe | now apply surfSearch_safe].
Qed.

Lemma searches_stay_in_cloud_witness :
  (exists r, @cornerSearch Reference.externals (Some Examples.corner11) Examples.corner11
               PointXYZI_default 11 = Done r) /\
  (exists r, @surfSearch Reference.externals (Some Examples.corner11) Examples.corner11
               PointXYZI_default 11 = Done r).
Proof.
  apply (@searches_stay_in_cloud Reference.externals).
  - vm_compute. reflexivity.
  - vm_compute. split; [discriminate | reflexivity].
  - vm_compute. lia.
Defined.

Section NoQueryPoints.
Context `{Externals}.

Lemma iteration_no_query_points (st : LaserOdometry) (it : nat) (s : SolverState) :
  surfPointsFlat st = [] ->
  iteration st [] it s = Done (so_clear s).
Proof.
  intros Hf. unfold iteration. rewrite Hf. simpl.
  now rewrite updateStep_few by (simpl; lia).
Qed.

Lemma solverLoop_no_query_points (st : LaserOdometry) (fuel : nat) :
  surfPointsFlat st = [] ->
  forall it s, so_isConverged s = false ->
               exists s', solverLoop st [] fuel it s = Done s'.
Proof.
  intros Hf. induction fuel as [| fuel IH]; intros it s Hc; simpl; [eauto |].
  rewrite (iteration_no_query_points st it s Hf). simpl. rewrite Hc. now apply IH.
Qed.

Lemma solve_no_query_points (st : LaserOdometry) :
  cornerPointsSharp st = [] -> surfPointsFlat st = [] -> exists x, solve st = Done x.
Proof.
  intros Hs Hf. unfold solve. rewrite Hs, removeNaN_id.
  match goal with |- context [solverLoop ?a [] ?c ?d ?e] =>
    destruct (solverLoop_no_query_points a c Hf d e eq_refl) as (s' & Hl)
  end.
  rewrite Hl. simpl. eauto.
Qed.

End NoQueryPoints.

(** X18: where a tick cannot run into an out-of-range read.  [process]
    returns on every tick that does not enter the solver block (data not
    valid, object not initialized, or a previous cloud too small) and on
    every tick that enters it with no sharp and no flat query point. *)
Theorem process_returns_outside_search `{Externals} (st : LaserOdometry) :
  ~ tickValid st \/ systemInited st = false \/
  (length (lastCornerCloud st) <= 10)%nat \/ (length (lastSurfaceCloud st) <= 100)%nat \/
  (cornerPointsSharp st = [] /\ surfPointsFlat st = []) ->
  exists st' r, process st = Done (st', r).
Proof.
  intros Hcase. destruct (hasNewData st) eqn:Hn; [| rewrite (process_waiting st Hn); eauto].
  destruct (systemInited st) eqn:Hi; [| rewrite (process_first st Hn Hi); eauto].
  destruct Hcase as [Hv | [Hf | Hrest]];
    [apply hasNewData_valid in Hn; tauto | discriminate |].
  destruct (Nat.le_gt_cases (length (lastCornerCloud st)) 10) as [H10 | H10];
    [rewrite (process_skipping st Hn Hi (or_introl H10)); eauto |].
  destruct (Nat.le_gt_cases (length (lastSurfaceCloud st)) 100) as [H100 | H100];
    [rewrite (process_skipping st Hn Hi (or_intror H100)); eauto |].
  destruct Hrest as [? | [? | (Hs & Hf)]]; [lia | lia |].
  unfold process. rewrite Hn. simpl. rewrite Hi. simpl.
  apply Nat.ltb_lt in H10, H100. rewrite H10, H100. simpl.
  destruct (solve_no_query_points (reset st) Hs Hf) as (x & Hx).
  rewrite Hx. simpl. eauto.
Qed.

Lemma process_returns_outside_search_witness :
  exists st' r, @process Reference.externals Examples.tick_unsynced = Done (st', r).
Proof.
  apply (@process_returns_outside_search Reference.externals Examples.tick_unsynced).
  left. intros (_ & _ & _ & _ & _ & _ & Hu & _). vm_compute in Hu. discriminate.
Defined.

Section Cadence.
Context `{Externals}.

Lemma cornerPoint_reuses (kd : KdTreeFLANN) (sharp : Cloud) (it : nat) (p : PointXYZI)
    (s s' : SolverState) (i : nat) :
  (it mod 5 <> 0)%nat -> cornerPoint kd sharp it p s i = Done s' ->
  caches s' = caches s /\ so_lastCornerCloud s' = so_lastCornerCloud s.
Proof.
  intros Hit. apply Nat.eqb_neq in Hit. unfold cornerPoint. rewrite Hit. simpl.
  intros Hc. apply bind_inv in Hc as (k2 & _ & Hc).
  destruct (0 <=? k2)%Z; [| injection Hc as <-; split; reflexivity].
  apply bind_inv in Hc as (k1 & _ & Hc).
  apply bind_inv in Hc as (t1 & _ & Hc).
  apply bind_inv in Hc as (t2 & _ & Hc).
  apply bind_inv in Hc as (rc & _ & Hc).
  destruct rc as [c |]; [| injection Hc as <-; split; reflexivity].
  apply bind_inv in Hc as (q & _ & Hc). injection Hc as <-. split; reflexivity.
Qed.

Lemma surfPoint_reuses (kd : KdTreeFLANN) (cloud flat : Cloud) (it : nat) (p : PointXYZI)
    (s s' : SolverState) (i : nat) :
  (it mod 5 <> 0)%nat -> surfPoint kd cloud flat it p s i = Done s' ->
  caches s' = caches s /\ so_lastCornerCloud s' = so_lastCornerCloud s.
Proof.
  intros Hit. apply Nat.eqb_neq in Hit. unfold surfPoint. rewrite Hit. simpl.
  intros Hc. apply bind_inv in Hc as (k2 & _ & Hc).
  destruct (0 <=? k2)%Z; [| injection Hc as <-; split; reflexivity].
  apply bind_inv in Hc as (k3 & _ & Hc).
  destruct (0 <=? k3)%Z; [| injection Hc as <-; split; reflexivity].
  apply bind_inv in Hc as (k1 & _ & Hc).
  apply bind_inv in Hc as (t1 & _ & Hc).
  apply bind_inv in Hc as (t2 & _ & Hc).
  apply bind_inv in Hc as (t3 & _ & Hc).
  apply bind_inv in Hc as (rc & _ & Hc).
  destruct rc as [c |]; [| injection Hc as <-; split; reflexivity].
  apply bind_inv in Hc as (q & _ & Hc). injection Hc as <-. split; reflexivity.
Qed.

Lemma updateStep_later (st : LaserOdometry) (it : nat) (b : SolverState) :
  it <> 0%nat ->
  so_isDegenerate (updateStep st it b) = so_isDegenerate b /\
  so_matP (updateStep st it b) = so_matP b.
Proof.
  intros Hit. apply Nat.eqb_neq in Hit. unfold updateStep.
  destruct (_ <? 10)%nat; [split; reflexivity |]. rewrite Hit. split; reflexivity.
Qed.

End Cadence.

(** X19: search cadence.  In an iteration whose count is not a multiple of 5
    the correspondences are not searched again: when it returns, the five
    index caches and the previous corner cloud are as they were. *)
Theorem iteration_reuses_correspondences `{Externals}
    (st : LaserOdometry) (sharp : Cloud) (it : nat) (s s' : SolverState) :
  (it mod 5 <> 0)%nat -> iteration st sharp it s = Done s' ->
  so_cornerInd1 s' = so_cornerInd1 s /\ so_cornerInd2 s' = so_cornerInd2 s /\
  so_surfInd1 s' = so_surfInd1 s /\ so_surfInd2 s' = so_surfInd2 s /\
  so_surfInd3 s' = so_surfInd3 s /\ so_lastCornerCloud s' = so_lastCornerCloud s.
Proof.
  intros Hit Hi. unfold iteration in Hi.
  apply bind_inv in Hi as (a & Ha & Hi). apply bind_inv in Hi as (b & Hb & Hi).
  injection Hi as <-.
  apply (for_each_inv (fun _ y => caches y = caches s /\
                                  so_lastCornerCloud y = so_lastCornerCloud s)) in Ha.
  - apply (for_each_inv (fun _ y => caches y = caches s /\
                                    so_lastCornerCloud y = so_lastCornerCloud s)) in Hb.
    + destruct Hb as (Hc & Hl).
      destruct (updateStep_keeps st it b) as (K0 & K1 & K2 & K3 & K4 & K5 & _).
      rewrite K0, K1, K2, K3, K4, K5. unfold caches in Hc. injection Hc as -> -> -> -> ->.
      repeat split. exact Hl.
    + exact Ha.
    + intros i y z _ (Hy & Hl) Hz.
      apply (surfPoint_reuses _ _ _ _ _ _ _ _ Hit) in Hz as (-> & ->). split; assumption.
  - split; reflexivity.
  - intros i y z _ (Hy & Hl) Hz.
    apply (cornerPoint_reuses _ _ _ _ _ _ _ Hit) in Hz as (-> & ->). split; assumption.
Qed.

(** X20: the degeneracy verdict is taken once per tick.  An iteration other
    than iteration 0 that returns leaves the degeneracy flag and the
    projector as they were. *)
Theorem iteration_keeps_degeneracy `{Externals}
    (st : LaserOdometry) (sharp : Cloud) (it : nat) (s s' : SolverState) :
  it <> 0%nat -> iteration st sharp it s = Done s' ->
  so_isDegenerate s' = so_isDegenerate s /\ so_matP s' = so_matP s.
Proof.
  intros Hit Hi.
  destruct (iteration_shape st sharp it s s' Hi) as (x & (_&_&D&M&_) & ->).
  destruct (updateStep_later st it x Hit) as (-> & ->). simpl in D, M. split; assumption.
Qed.

(** X21: the Jacobian row at zero rotation.  For a transform whose three
    angles are zero, and a libm whose sine is 0 and cosine is 1 at angle
    zero, the rotation entries of the row are the cross product of the
    coefficient direction with the point taken relative to the translation,
    the translation entries are the negated coefficient direction, and the
    right-hand side is -0.05 times the stored residual. *)
Theorem jacobianRow_at_zero_rotation `{Externals} (t : Twist) (o c : PointXYZI) :
  (forall a, a == 0 -> ext_sin a == 0 /\ ext_cos a == 1) ->
  rot_x t == 0 -> rot_y t == 0 -> rot_z t == 0 ->
  let row := fst (jacobianRow t o c) in
  let dx := p_x o - v_x (pos t) in
  let dy := p_y o - v_y (pos t) in
  let dz := p_z o - v_z (pos t) in
  length row = 6%nat /\
  vget row 0 == p_y c * dz - p_z c * dy /\
  vget row 1 == p_z c * dx - p_x c * dz /\
  vget row 2 == p_x c * dy - p_y c * dx /\
  vget row 3 == - p_x c /\ vget row 4 == - p_y c /\ vget row 5 == - p_z c /\
  snd (jacobianRow t o c) == - (5 # 100) * intensity c.
Proof.
  intros Htrig Hx Hy Hz. cbv zeta.
  assert (Hx1 : 1 * rot_x t == 0) by lra.
  assert (Hy1 : 1 * rot_y t == 0) by lra.
  assert (Hz1 : 1 * rot_z t == 0) by lra.
  destruct (Htrig _ Hx1) as (Sx & Cx), (Htrig _ Hy1) as (Sy & Cy), (Htrig _ Hz1) as (Sz & Cz).
  unfold jacobianRow. cbv zeta. unfold vget. simpl.
  rewrite Sx, Cx, Sy, Cy, Sz, Cz.
  repeat split; ring.
Qed.

Lemma jacobianRow_at_zero_rotation_witness :
  vget (fst (@jacobianRow Reference.externals (mkTwist 0 0 0 (mkVector3 1 0 0))
                (mkPoint 1 2 3 0) (mkPoint 0 0 1 (1 # 2)))) 3 == - 0.
Proof.
  apply (@jacobianRow_at_zero_rotation Reference.externals
           (mkTwist 0 0 0 (mkVector3 1 0 0)) (mkPoint 1 2 3 0) (mkPoint 0 0 1 (1 # 2)));
    try reflexivity.
  intros a Ha. split; [exact Ha | reflexivity].
Defined.

Lemma example_iteration_returns :
  exists s',
    @iteration Reference.externals (reset Examples.big2_far) Examples.sharp_far 1
       (mkSolver Twist_default Examples.corner11 [10%Z] [(-1)%Z] [100%Z] [99%Z] [(-1)%Z]
                 [] [] true [] false) = Done s'.
Proof.
  destruct (@iteration Reference.externals (reset Examples.big2_far) Examples.sharp_far 1
              (mkSolver Twist_default Examples.corner11 [10%Z] [(-1)%Z] [100%Z] [99%Z] [(-1)%Z]
                        [] [] true [] false)) as [s' | j n |] eqn:E; [eauto | |];
  exfalso;
  assert (Hd : match @iteration Reference.externals (reset Examples.big2_far)
                       Examples.sharp_far 1
                       (mkSolver Twist_default Examples.corner11 [10%Z] [(-1)%Z] [100%Z] [99%Z]
                                 [(-1)%Z] [] [] true [] false) with
               | Done _ => true
               | _ => false
               end = true) by (vm_compute; reflexivity);
  rewrite E in Hd; discriminate.
Qed.

Lemma iteration_reuses_correspondences_witness :
  exists s',
    @iteration Reference.externals (reset Examples.big2_far) Examples.sharp_far 1
       (mkSolver Twist_default Examples.corner11 [10%Z] [(-1)%Z] [100%Z] [99%Z] [(-1)%Z]
                 [] [] true [] false) = Done s' /\
    so_cornerInd1 s' = [10%Z] /\ so_surfInd2 s' = [99%Z].
Proof.
  destruct example_iteration_returns as (s' & E). exists s'. split; [exact E |].
  destruct (@iteration_reuses_correspondences Reference.externals _ _ 1 _ _
              ltac:(vm_compute; discriminate) E) as (H1 & _ & _ & H4 & _).
  split; assumption.
Defined.

Lemma iteration_keeps_degeneracy_witness :
  exists s',
    @iteration Reference.externals (reset Examples.big2_far) Examples.sharp_far 1
       (mkSolver Twist_default Examples.corner11 [10%Z] [(-1)%Z] [100%Z] [99%Z] [(-1)%Z]
                 [] [] true [] false) = Done s' /\
    so_isDegenerate s' = true.
Proof.
  destruct example_iteration_returns as (s' & E). exists s'. split; [exact E |].
  exact (proj1 (@iteration_keeps_degeneracy Reference.externals _ _ 1 _ _
                  ltac:(discriminate) E)).
Defined.

Section Stationary.
Context `{Externals}.
Hypothesis Htrig : forall a, a == 0 -> ext_sin a == 0 /\ ext_cos a == 1.

Lemma rotX_still (v w : Vector3) (a : Angle) :
  a == 0 -> vecEq v w -> vecEq (rotX v a) w.
Proof.
  intros Ha (Ex & Ey & Ez). destruct (Htrig _ Ha) as (S & C).
  unfold vecEq, rotX; simpl. rewrite S, C. repeat split; lra.
Qed.

Lemma rotY_still (v w : Vector3) (a : Angle) :
  a == 0 -> vecEq v w -> vecEq (rotY v a) w.
Proof.
  intros Ha (Ex & Ey & Ez). destruct (Htrig _ Ha) as (S & C).
  unfold vecEq, rotY; simpl. rewrite S, C. repeat split; lra.
Qed.

Lemma rotZ_still (v w : Vector3) (a : Angle) :
  a == 0 -> vecEq v w -> vecEq (rotZ v a) w.
Proof.
  intros Ha (Ex & Ey & Ez). destruct (Htrig _ Ha) as (S & C).
  unfold vecEq, rotZ; simpl. rewrite S, C. repeat split; lra.
Qed.

Lemma rotateZXY_still (v w : Vector3) (az ax ay : Angle) :
  az == 0 -> ax == 0 -> ay == 0 -> vecEq v w -> vecEq (rotateZXY v az ax ay) w.
Proof.
  intros Hz Hx Hy E. unfold rotateZXY.
  apply rotY_still; [exact Hy |]. apply rotX_still; [exact Hx |].
  apply rotZ_still; [exact Hz | exact E].
Qed.

Lemma rotateYXZ_still (v w : Vector3) (ay ax az : Angle) :
  ay == 0 -> ax == 0 -> az == 0 -> vecEq v w -> vecEq (rotateYXZ v ay ax az) w.
Proof.
  intros Hy Hx Hz E. unfold rotateYXZ.
  apply rotZ_still; [exact Hz |]. apply rotX_still; [exact Hx |].
  apply rotY_still; [exact Hy | exact E].
Qed.

End Stationary.

(** X22: a stationary sensor.  With a zero incremental transform and zero IMU
    hints [transformToEnd] leaves the coordinates of every point as they
    are, for any libm whose sine is 0 and cosine is 1 at angle zero. *)
Theorem transformToEnd_stationary `{Externals} (t : Twist) (i : ImuTrans) (p : PointXYZI) :
  (forall a, a == 0 -> ext_sin a == 0 /\ ext_cos a == 1) ->
  twistEq t Twist_default ->
  imuRollStart i == 0 -> imuPitchStart i == 0 -> imuYawStart i == 0 ->
  imuRollEnd i == 0 -> imuPitchEnd i == 0 -> imuYawEnd i == 0 ->
  v_x (imuShiftFromStart i) == 0 -> v_y (imuShiftFromStart i) == 0 ->
  v_z (imuShiftFromStart i) == 0 ->
  p_x (transformToEnd_point t i p) == p_x p /\
  p_y (transformToEnd_point t i p) == p_y p /\
  p_z (transformToEnd_point t i p) == p_z p.
Proof.
  intros Htrig (Hx & Hy & Hz & Hpx & Hpy & Hpz) Rs Ps Ys Re Pe Ye Sx Sy Sz.
  simpl in Hx, Hy, Hz, Hpx, Hpy, Hpz.
  unfold transformToEnd_point.
  set (s := 10 * (intensity p - inject_Z (to_int (intensity p)))).
  cbv zeta.
  match goal with
  | |- p_x (with_xyz ?q ?v) == _ /\ _ => change (vecEq v (xyz p))
  end.
  apply (rotateYXZ_still Htrig); [lra | lra | lra |].
  apply (rotateZXY_still Htrig); [exact Rs | exact Ps | exact Ys |].
  match goal with
  | |- vecEq (mkVector3 (v_x ?v3 + _) _ _) _ =>
      assert (E3 : vecEq v3 (xyz p))
  end.
  { apply (rotateYXZ_still Htrig); [exact Hy | exact Hx | exact Hz |].
    apply (rotateZXY_still Htrig).
    - rewrite Hz; ring.
    - rewrite Hx; ring.
    - rewrite Hy; ring.
    - unfold vecEq, xyz; simpl. rewrite Hpx, Hpy, Hpz. repeat split; ring. }
  destruct E3 as (Ex & Ey & Ez). unfold vecEq; simpl.
  rewrite Ex, Ey, Ez, Hpx, Hpy, Hpz, Sx, Sy, Sz. simpl. repeat split; ring.
Qed.

Lemma transformToEnd_stationary_witness :
  p_x (@transformToEnd_point Reference.externals Twist_default ImuTrans_default
         (mkPoint 4 5 6 (25 # 10))) == 4.
Proof.
  assert (Htrig : forall a, a == 0 ->
            @ext_sin Reference.externals a == 0 /\ @ext_cos Reference.externals a == 1).
  { intros a Ha. split; [exact Ha | reflexivity]. }
  assert (Ht : twistEq Twist_default Twist_default).
  { repeat split; reflexivity. }
  assert (Z0 : 0 == 0) by reflexivity.
  exact (proj1 (@transformToEnd_stationary Reference.externals Twist_default
                  ImuTrans_default (mkPoint 4 5 6 (25 # 10))
                  Htrig Ht Z0 Z0 Z0 Z0 Z0 Z0 Z0 Z0 Z0)).
Defined.
